(** * Freight matching service: matching predicate, keyset pagination, search creation

    A shallow embedding of [server.py] and [models.py].

    - Tables are finite maps from the integer primary key to the remaining
      columns of the row, so the uniqueness of [id] that the storage layer
      enforces holds by construction.
    - Nullable columns are [option]s and every SQL condition evaluates in
      three-valued logic: [Some true], [Some false] or [None] (UNKNOWN).
      A [WHERE] clause keeps a row only when its condition is [Some true].
    - [Float] columns are IEEE 754 binary64 values ([spec_float]).
    - A [date] is its proleptic ordinal and a [datetime] the number of
      microseconds since the epoch, both integers.
    - Each path operation is modelled twice: the body of the handler, under
      the name it has in [server.py], and the endpoint as the framework
      serves it ([GET_find_matches], [POST_freight_searches]), which checks
      the declared constraints on the request before it calls the handler.
    - A handler that writes returns the store after the call next to its
      answer. *)

From stdpp Require Import gmap strings list sorting.
From Stdlib Require Import ZArith SpecFloat.

Local Open Scope Z_scope.

Abbreviation date := Z (only parsing).
Abbreviation datetime := Z (only parsing).
Abbreviation float := spec_float (only parsing).

(** ** Floating point comparisons *)

(** Python's [float(n)] for an integer literal of a JSON payload. *)
Definition float_of_Z (n : Z) : float := binary_normalize 53 1024 n 0 false.

(** Python's [a < b] on floats (IEEE: false as soon as one side is NaN);
    this is the comparison that the pydantic validators run. *)
Definition py_float_lt (a b : float) : bool := SFltb a b.

(** The comparison of the storage layer on [double precision] columns.
    [database.py] configures PostgreSQL, whose [float8] order treats NaN as
    equal to itself and greater than every other value; on all other values
    it is the IEEE comparison. *)
Definition float8_cmp (a b : float) : comparison :=
  match a, b with
  | S754_nan, S754_nan => Eq
  | S754_nan, _ => Gt
  | _, S754_nan => Lt
  | _, _ => match SFcompare a b with Some c => c | None => Eq end
  end.

Definition float8_le (a b : float) : bool :=
  match float8_cmp a b with Gt => false | _ => true end.

Definition float8_ge (a b : float) : bool :=
  match float8_cmp a b with Lt => false | _ => true end.

(** ** SQL three-valued logic *)

Module SQL.

(** [None] is UNKNOWN, the value of every comparison with NULL. *)
Abbreviation tv := (option bool) (only parsing).

Definition or_ (a b : tv) : tv :=
  match a, b with
  | Some true, _ | _, Some true => Some true
  | Some false, Some false => Some false
  | _, _ => None
  end.

Definition and_ (a b : tv) : tv :=
  match a, b with
  | Some false, _ | _, Some false => Some false
  | Some true, Some true => Some true
  | _, _ => None
  end.

(** A binary comparison operator applied to two nullable operands. *)
Definition cmp {A} (op : A → A → bool) (x y : option A) : tv :=
  match x, y with
  | Some a, Some b => Some (op a b)
  | _, _ => None
  end.

(** [col.is_(None)], that is [col IS NULL]: never UNKNOWN. *)
Definition is_null {A} (x : option A) : tv :=
  Some (match x with None => true | Some _ => false end).

(** [col.in_([v1, ..., vn])], that is [col IN (v1, ..., vn)]: the
    disjunction [col = v1 OR ... OR col = vn].  A [None] of the Python
    list is rendered as the literal NULL, and [col = NULL] is UNKNOWN. *)
Definition in_ {A} (eqb : A → A → bool) (x : option A) (vs : list (option A)) : tv :=
  foldr (λ v acc, or_ (cmp eqb x v) acc) (Some false) vs.

(** [.where(c1, ..., cn)] is the conjunction of its arguments. *)
Definition where_ (conds : list tv) : tv := foldr and_ (Some true) conds.

(** A row qualifies when the [WHERE] condition is TRUE. *)
Definition holds (c : tv) : Prop := c = Some true.

#[global] Instance holds_dec c : Decision (holds c).
Proof. unfold holds. apply _. Defined.

End SQL.

(** ** models.py *)

Module User.
Record t := mk { name : string; surname : string; email : string }.
End User.

Module Freight.
Record t := mk {
  price : float;
  pickup_code : Z;
  delivery_code : Z;
  pickup_date : date;
  delivery_date : date;
}.
End Freight.

Module FreightSearch.
Record t := mk {
  user_id : Z;
  min_price : option float;
  max_price : option float;
  pickup_code : option Z;
  delivery_code : option Z;
  pickup_date_from : option date;
  pickup_date_to : option date;
  delivery_date_from : option date;
  delivery_date_to : option date;
  created_at : datetime;
}.

(** A row as a query returns it: the primary key and the columns. *)
Abbreviation row := (Z * t)%type (only parsing).
Definition id (r : row) : Z := r.1.
Definition cols (r : row) : t := r.2.
End FreightSearch.

(** The database: one table per model. *)
Record Store := mkStore {
  users : gmap Z User.t;
  freights : gmap Z Freight.t;
  freight_searches : gmap Z FreightSearch.t;
}.

(** ** Failures *)

Inductive Failure :=
| HTTPException (status_code : Z) (detail : string)
    (** raised by the handlers *)
| RequestValidationError (errors : list string)
    (** raised by the framework before the handler runs, HTTP 422 *)
| IndexError.

Inductive Result (A : Type) :=
| Ok (a : A)
| Raise (e : Failure).
Arguments Ok {A} a.
Arguments Raise {A} e.


Definition InvalidArgument {A} (r : Result A) : Prop :=
  ∃ errors, errors ≠ [] ∧ r = Raise (RequestValidationError errors).


(** ** server.py: the matching predicate of [find_matches] *)

(** [FreightSearch.pickup_code.in_([freight_obj.pickup_code, None])] and the
    same for the delivery code. *)
Definition route_conds (freight_obj : Freight.t) (s : FreightSearch.t) : list (option bool) :=
  [ SQL.in_ Z.eqb (FreightSearch.pickup_code s)
      [Some (Freight.pickup_code freight_obj); None];
    SQL.in_ Z.eqb (FreightSearch.delivery_code s)
      [Some (Freight.delivery_code freight_obj); None] ].

Definition price_conds (freight_obj : Freight.t) (s : FreightSearch.t) : list (option bool) :=
  [ SQL.or_ (SQL.is_null (FreightSearch.min_price s))
      (SQL.cmp float8_le (FreightSearch.min_price s) (Some (Freight.price freight_obj)));
    SQL.or_ (SQL.is_null (FreightSearch.max_price s))
      (SQL.cmp float8_ge (FreightSearch.max_price s) (Some (Freight.price freight_obj))) ].

Definition pickup_conds (freight_obj : Freight.t) (s : FreightSearch.t) : list (option bool) :=
  [ SQL.or_ (SQL.is_null (FreightSearch.pickup_date_from s))
      (SQL.cmp Z.leb (FreightSearch.pickup_date_from s) (Some (Freight.pickup_date freight_obj)));
    SQL.or_ (SQL.is_null (FreightSearch.pickup_date_to s))
      (SQL.cmp Z.geb (FreightSearch.pickup_date_to s) (Some (Freight.pickup_date freight_obj))) ].

Definition delivery_conds (freight_obj : Freight.t) (s : FreightSearch.t) : list (option bool) :=
  [ SQL.or_ (SQL.is_null (FreightSearch.delivery_date_from s))
      (SQL.cmp Z.leb (FreightSearch.delivery_date_from s) (Some (Freight.delivery_date freight_obj)));
    SQL.or_ (SQL.is_null (FreightSearch.delivery_date_to s))
      (SQL.cmp Z.geb (FreightSearch.delivery_date_to s) (Some (Freight.delivery_date freight_obj))) ].

(** [conds = [*route_conds, *price_conds, *pickup_conds, *delivery_conds]] *)
Definition match_conds (freight_obj : Freight.t) (s : FreightSearch.t) : list (option bool) :=
  route_conds freight_obj s ++ price_conds freight_obj s
    ++ pickup_conds freight_obj s ++ delivery_conds freight_obj s.

(** The keyset condition, appended only when both halves of the cursor are
    given.  [created_at] and [id] are not nullable. *)
Definition keyset_conds (before_ts : option datetime) (before_id : option Z)
    (r : FreightSearch.row) : list (option bool) :=
  match before_ts, before_id with
  | Some ts, Some bid =>
    let created_at := Some (FreightSearch.created_at (FreightSearch.cols r)) in
    let id := Some (FreightSearch.id r) in
    [ SQL.or_ (SQL.cmp Z.ltb created_at (Some ts))
        (SQL.and_ (SQL.cmp Z.eqb created_at (Some ts)) (SQL.cmp Z.ltb id (Some bid))) ]
  | _, _ => []
  end.

(** ** server.py: running the query *)

(** [select(FreightSearch).where] over the list [conds] *)
Definition select_where (table : gmap Z FreightSearch.t)
    (conds : FreightSearch.row → list (option bool)) : list FreightSearch.row :=
  filter (λ r, SQL.holds (SQL.where_ (conds r))) (map_to_list table).

(** [r1] is not placed after [r2] by
    [ORDER BY created_at DESC, id DESC]. *)
Definition desc (r1 r2 : FreightSearch.row) : Prop :=
  FreightSearch.created_at (FreightSearch.cols r2) < FreightSearch.created_at (FreightSearch.cols r1)
  ∨ (FreightSearch.created_at (FreightSearch.cols r2) = FreightSearch.created_at (FreightSearch.cols r1)
     ∧ FreightSearch.id r2 ≤ FreightSearch.id r1).

#[global] Instance desc_dec r1 r2 : Decision (desc r1 r2).
Proof. unfold desc. apply _. Defined.

Definition order_by_desc (l : list FreightSearch.row) : list FreightSearch.row :=
  merge_sort desc l.

(** [.limit(limit).offset(offset)]: skip [offset] rows, then keep [limit].
    The endpoint lets no negative [limit] or [offset] through; here they
    count as zero. *)
Definition limit_offset {A} (limit offset : Z) (l : list A) : list A :=
  take (Z.to_nat limit) (drop (Z.to_nat offset) l).

(** ** server.py: [find_matches] *)

(** The two header values, [datetime.isoformat()] and [str(int)], kept as
    the values they render: a client hands them back unchanged as
    [before_ts] and [before_id]. *)
Inductive HeaderValue :=
| isoformat (ts : datetime)
| str (n : Z).

Abbreviation Headers := (gmap string HeaderValue) (only parsing).

(** The body of the handler.  It returns the page and the response object
    after the handler has run ([None] when the caller passed none). *)
Definition find_matches (db : Store) (freight_id : Z) (response : option Headers)
    (limit offset : Z) (before_ts : option datetime) (before_id : option Z)
  : Result (list FreightSearch.row * option Headers) :=
  match freights db !! freight_id with
  | None => Raise (HTTPException 404 "Freight not found")
  | Some freight_obj =>
    let conds r :=
      match_conds freight_obj (FreightSearch.cols r) ++ keyset_conds before_ts before_id r in
    let base := select_where (freight_searches db) conds in
    let rows := limit_offset limit offset (order_by_desc base) in
    match response with
    | Some headers =>
      if bool_decide (Z.of_nat (length rows) = limit) then
        match last rows with
        | Some last =>
          Ok (rows,
              Some (<["X-Next-Before-Id" := str (FreightSearch.id last)]>
                   (<["X-Next-Before-Ts" :=
                        isoformat (FreightSearch.created_at (FreightSearch.cols last))]>
                    headers)))
        | None => Raise IndexError
        end
      else Ok (rows, Some headers)
    | None => Ok (rows, None)
    end
  end.

(** The constraints declared on the query parameters:
    [limit: int = Query(200, ge=1, le=1000)], [offset: int = Query(0, ge=0)]. *)
Definition query_errors (limit offset : Z) : list string :=
  (if bool_decide (1 ≤ limit ≤ 1000) then [] else ["limit"])
  ++ (if bool_decide (0 ≤ offset) then [] else ["offset"]).

(** [GET /freight/{freight_id}/find_matches/] as the framework serves it:
    absent query parameters take their defaults, the declared constraints
    are checked before the handler runs, and the handler receives a fresh
    response object whose headers go out with the page. *)
Definition GET_find_matches (db : Store) (freight_id : Z) (limit offset : option Z)
    (before_ts : option datetime) (before_id : option Z)
  : Result (list FreightSearch.row * Headers) :=
  let limit := default 200 limit in
  let offset := default 0 offset in
  match query_errors limit offset with
  | [] =>
    match find_matches db freight_id (Some ∅) limit offset before_ts before_id with
    | Ok (rows, response) => Ok (rows, default ∅ response)
    | Raise e => Raise e
    end
  | errors => Raise (RequestValidationError errors)
  end.

(** The client side of keyset paging: the cursor carried by the headers. *)
Definition next_cursor (headers : Headers) : option (datetime * Z) :=
  match headers !! "X-Next-Before-Ts", headers !! "X-Next-Before-Id" with
  | Some (isoformat ts), Some (str n) => Some (ts, n)
  | _, _ => None
  end.

(** ** server.py: [FreightSearchBase] and [create_freight_search] *)

Module FreightSearchCreate.
Record t := mk {
  user_id : Z;
  min_price : option float;
  max_price : option float;
  pickup_code : option Z;
  delivery_code : option Z;
  pickup_date_from : option date;
  pickup_date_to : option date;
  delivery_date_from : option date;
  delivery_date_to : option date;
}.
End FreightSearchCreate.

(** The field validators.  Each receives the value [v] of its field and, as
    [info.data], the fields validated before it, of which it reads one; it
    raises [ValueError] with a message ([inl]) or returns [v] ([inr]). *)
Definition _price_bounds (v : option float) (min_v : option float) : string + option float :=
  match v, min_v with
  | Some v', Some min_v' =>
    if py_float_lt v' min_v' then inl "max_price must be >= min_price" else inr v
  | _, _ => inr v
  end.

Definition _pickup_window (v : option date) (f : option date) : string + option date :=
  match v, f with
  | Some v', Some f' =>
    if v' <? f' then inl "pickup_date_to must be >= pickup_date_from" else inr v
  | _, _ => inr v
  end.

Definition _delivery_window (v : option date) (f : option date) : string + option date :=
  match v, f with
  | Some v', Some f' =>
    if v' <? f' then inl "delivery_date_to must be >= delivery_date_from" else inr v
  | _, _ => inr v
  end.

Definition error_of {A} (r : string + A) : list string :=
  match r with inl msg => [msg] | inr _ => [] end.

(** Validation of a request body against [FreightSearchCreate]: the fields
    are validated in declaration order, every error is collected, and the
    request is rejected when there is one. *)
Definition model_validate (payload : FreightSearchCreate.t) : Result FreightSearchCreate.t :=
  let errors :=
    error_of (_price_bounds (FreightSearchCreate.max_price payload)
                (FreightSearchCreate.min_price payload))
    ++ error_of (_pickup_window (FreightSearchCreate.pickup_date_to payload)
                   (FreightSearchCreate.pickup_date_from payload))
    ++ error_of (_delivery_window (FreightSearchCreate.delivery_date_to payload)
                   (FreightSearchCreate.delivery_date_from payload)) in
  match errors with
  | [] => Ok payload
  | _ => Raise (RequestValidationError errors)
  end.

(** The primary key that the table hands out to a new row: one above the
    largest in use. *)
Definition next_id {A} (table : gmap Z A) : Z :=
  1 + foldr Z.max 0 (map_to_list table).*1.

(** The [FreightSearch] built from [search.model_dump()], stamped by the
    store with [created_at = now()]. *)
Definition search_obj_of (search : FreightSearchCreate.t) (now : datetime) : FreightSearch.t :=
  FreightSearch.mk
    (FreightSearchCreate.user_id search)
    (FreightSearchCreate.min_price search)
    (FreightSearchCreate.max_price search)
    (FreightSearchCreate.pickup_code search)
    (FreightSearchCreate.delivery_code search)
    (FreightSearchCreate.pickup_date_from search)
    (FreightSearchCreate.pickup_date_to search)
    (FreightSearchCreate.delivery_date_from search)
    (FreightSearchCreate.delivery_date_to search)
    now.

(** The body of the handler: the answer and the store after the call.
    [now] is the clock of the store at the insertion. *)
Definition create_freight_search (db : Store) (now : datetime) (search : FreightSearchCreate.t)
  : Result FreightSearch.row * Store :=
  match users db !! FreightSearchCreate.user_id search with
  | None => (Raise (HTTPException 404 "User not found"), db)
  | Some user =>
    let search_obj := search_obj_of search now in
    let id := next_id (freight_searches db) in
    (Ok (id, search_obj),
     mkStore (users db) (freights db) (<[id := search_obj]> (freight_searches db)))
  end.

(** [POST /freight_searches/] as the framework serves it: the body is
    validated against the model before the handler runs. *)
Definition POST_freight_searches (db : Store) (now : datetime) (payload : FreightSearchCreate.t)
  : Result FreightSearch.row * Store :=
  match model_validate payload with
  | Ok search => create_freight_search db now search
  | Raise e => (Raise e, db)
  end.

(** ** Vocabulary of the properties *)

(** [r1] comes strictly before [r2] under
    [ORDER BY created_at DESC, id DESC]. *)
Definition strictly_desc (r1 r2 : FreightSearch.row) : Prop :=
  FreightSearch.created_at (FreightSearch.cols r2) < FreightSearch.created_at (FreightSearch.cols r1)
  ∨ (FreightSearch.created_at (FreightSearch.cols r2) = FreightSearch.created_at (FreightSearch.cols r1)
     ∧ FreightSearch.id r2 < FreightSearch.id r1).

(** The continuation predicate of a cursor [(ts, n)]. *)
Definition before_cursor (c : datetime * Z) (r : FreightSearch.row) : Prop :=
  FreightSearch.created_at (FreightSearch.cols r) < c.1
  ∨ (FreightSearch.created_at (FreightSearch.cols r) = c.1 ∧ FreightSearch.id r < c.2).

#[global] Instance before_cursor_dec c r : Decision (before_cursor c r).
Proof. unfold before_cursor. apply _. Defined.

(** The cursor that designates a row. *)
Definition cursor_of (r : FreightSearch.row) : datetime * Z :=
  (FreightSearch.created_at (FreightSearch.cols r), FreightSearch.id r).

(** The matching predicate that [find_matches] builds for a freight. *)
Definition Matches (f : Freight.t) (s : FreightSearch.t) : Prop :=
  SQL.holds (SQL.where_ (match_conds f s)).

#[global] Instance Matches_dec f s : Decision (Matches f s).
Proof. unfold Matches. apply _. Defined.

(** The unpaginated match set of a freight, in result order: the rows that
    the query selects with neither cursor, limit nor offset. *)
Definition match_set (db : Store) (f : Freight.t) : list FreightSearch.row :=
  order_by_desc (select_where (freight_searches db) (λ r, match_conds f (FreightSearch.cols r))).

(** The part of the condition that a cursor adds, as a predicate. *)
Definition cursor_pred (before_ts : option datetime) (before_id : option Z)
    (r : FreightSearch.row) : Prop :=
  match before_ts, before_id with
  | Some ts, Some n => before_cursor (ts, n) r
  | _, _ => True
  end.

#[global] Instance cursor_pred_dec before_ts before_id r :
  Decision (cursor_pred before_ts before_id r).
Proof. unfold cursor_pred. destruct before_ts, before_id; apply _. Defined.

(** A keyset paging session of a client: ask for pages of [L] rows, first
    without a cursor and then with the cursor of the previous answer, until
    a page has fewer than [L] rows.  The result is the list of the pages;
    [None] when a call fails or [fuel] calls were not enough. *)
Fixpoint keyset_session (fuel : nat) (db : Store) (freight_id : Z) (L : Z)
    (cursor : option (datetime * Z)) : option (list (list FreightSearch.row)) :=
  match fuel with
  | O => None
  | S fuel =>
    match GET_find_matches db freight_id (Some L) None (fst <$> cursor) (snd <$> cursor) with
    | Ok (rows, headers) =>
      if bool_decide (Z.of_nat (length rows) < L) then Some [rows]
      else
        match next_cursor headers with
        | Some c => cons rows <$> keyset_session fuel db freight_id L (Some c)
        | None => None
        end
    | Raise _ => None
    end
  end.

(** The page that a call is to return: the rows of the match set that the
    cursor admits, less the first [offset] of them, cut at [limit]. *)
Definition page_of (db : Store) (f : Freight.t) (limit offset : Z)
    (before_ts : option datetime) (before_id : option Z) : list FreightSearch.row :=
  limit_offset limit offset (filter (cursor_pred before_ts before_id) (match_set db f)).

(** The headers that announce the cursor [c]. *)
Definition cursor_headers (c : datetime * Z) : Headers :=
  <["X-Next-Before-Id" := str c.2]> (<["X-Next-Before-Ts" := isoformat c.1]> ∅).

(** The cross-field invariants of a search: a bound pair is inverted when
    both bounds are present and the upper one is below the lower one. *)
Definition price_inverted (payload : FreightSearchCreate.t) : Prop :=
  ∃ lo hi, FreightSearchCreate.min_price payload = Some lo
           ∧ FreightSearchCreate.max_price payload = Some hi
           ∧ py_float_lt hi lo = true.

Definition pickup_inverted (payload : FreightSearchCreate.t) : Prop :=
  ∃ from to, FreightSearchCreate.pickup_date_from payload = Some from
             ∧ FreightSearchCreate.pickup_date_to payload = Some to
             ∧ to < from.

Definition delivery_inverted (payload : FreightSearchCreate.t) : Prop :=
  ∃ from to, FreightSearchCreate.delivery_date_from payload = Some from
             ∧ FreightSearchCreate.delivery_date_to payload = Some to
             ∧ to < from.

Definition invariant_violated (payload : FreightSearchCreate.t) : Prop :=
  price_inverted payload ∨ pickup_inverted payload ∨ delivery_inverted payload.

(** ** Sample data

    The rows that [init_db.py] seeds, and the searches that the tests and
    the load scripts post: two users, three freights, of which freight 1
    costs 300.0 on the lane 10100 to 20100, picked up on 2022-01-01 and
    delivered on 2022-01-02. *)

Module Sample.

Definition alice : User.t := User.mk "Alice" "Rossi" "alice.rossi@example.com".
Definition bob : User.t := User.mk "Bob" "Bianchi" "bob.bianchi@example.com".

Definition freight1 : Freight.t :=
  Freight.mk (float_of_Z 300) 10100 20100 738156 738157.

Definition freight2 : Freight.t :=
  Freight.mk (binary_normalize 53 1024 901 (-1) false) 10100 20200 738157 738158.

Definition freight3 : Freight.t :=
  Freight.mk (float_of_Z 500) 10200 20300 738158 738159.

(** [{"user_id": 1, "pickup_code": 10100, "delivery_code": 20100,
      "min_price": 200, "max_price": 350}] *)
Definition lane (created_at : datetime) : FreightSearch.t :=
  FreightSearch.mk 1 (Some (float_of_Z 200)) (Some (float_of_Z 350))
    (Some 10100) (Some 20100) None None None None created_at.

(** [{"user_id": 1, "pickup_code": 99999}] *)
Definition other_lane (created_at : datetime) : FreightSearch.t :=
  FreightSearch.mk 1 None None (Some 99999) None None None None None created_at.

(** [{"user_id": 1}]: no constraint at all. *)
Definition unconstrained (created_at : datetime) : FreightSearch.t :=
  FreightSearch.mk 1 None None None None None None None None created_at.

(** [{"user_id": 1, "min_price": 300}] and [{"user_id": 1, "max_price": 300}]:
    a bound equal to the price of freight 1 and nothing else. *)
Definition min_at_price (created_at : datetime) : FreightSearch.t :=
  FreightSearch.mk 1 (Some (float_of_Z 300)) None None None None None None None created_at.

Definition max_at_price (created_at : datetime) : FreightSearch.t :=
  FreightSearch.mk 1 None (Some (float_of_Z 300)) None None None None None None created_at.

(** The seeded store with the given rows in [freight_searches]. *)
Definition store (searches : list (Z * FreightSearch.t)) : Store :=
  mkStore (list_to_map [(1, alice); (2, bob)])
    (list_to_map [(1, freight1); (2, freight2); (3, freight3)])
    (list_to_map searches).

(** Five searches on the lane of freight 1; 2 and 3 were created at the
    same instant, and 6 is on another lane. *)
Definition lanes : Store :=
  store [ (1, lane 1000); (2, lane 2000); (3, lane 2000); (4, lane 3000);
          (5, lane 4000); (6, other_lane 5000) ].


Definition lane_body : FreightSearchCreate.t :=
  FreightSearchCreate.mk 1 (Some (float_of_Z 200)) (Some (float_of_Z 350))
    (Some 10100) (Some 20100) None None None None.

Definition other_lane_body : FreightSearchCreate.t :=
  FreightSearchCreate.mk 1 None None (Some 99999) None None None None None.

Definition priced_body (u lo hi : Z) : FreightSearchCreate.t :=
  FreightSearchCreate.mk u (Some (float_of_Z lo)) (Some (float_of_Z hi))
    None None None None None None.

End Sample.

(** ** server.py: the other handlers *)

(** [create_freight].  The request model [FreightCreate] has exactly the
    columns of [Freight] and no validator, so the body is a [Freight.t];
    the handler stores it under a new id and returns the stored row.  It
    has no failure path. *)
Definition create_freight (db : Store) (freight : Freight.t) : (Z * Freight.t) * Store :=
  let id := next_id (freights db) in
  ((id, freight),
   mkStore (users db) (<[id := freight]> (freights db)) (freight_searches db)).

(** [list_freights] and [list_freight_searches]: [select(...)] with
    neither condition nor [ORDER BY], so the store is free to return the
    rows in any order; the order of [map_to_list] stands for it. *)
Definition list_freights (db : Store) : list (Z * Freight.t) :=
  map_to_list (freights db).

Definition list_freight_searches (db : Store) : list FreightSearch.row :=
  map_to_list (freight_searches db).

(** The table [test] of [models.py]; [message] is nullable. *)
Module Test.
Record t := mk { message : option string }.
End Test.

(** [get_hello]: the message of the first row that [select(Test)] returns,
    whichever the store puts first, or a 404 when the table is empty.  The
    handler reads no other table, so it takes this one alone. *)
Definition get_hello (test : gmap Z Test.t) : Result (option string) :=
  match map_to_list test with
  | [] => Raise (HTTPException 404 "No test record found")
  | test_record :: _ => Ok (Test.message test_record.2)
  end.

(** ** Vocabulary of the further properties *)

(** A stored search keeps the cross-field invariants of [FreightSearchBase]:
    no validator would reject its bounds. *)
Definition ranges_ordered (s : FreightSearch.t) : Prop :=
  (∀ lo hi, FreightSearch.min_price s = Some lo → FreightSearch.max_price s = Some hi →
            py_float_lt hi lo = false)
  ∧ (∀ from to, FreightSearch.pickup_date_from s = Some from →
                FreightSearch.pickup_date_to s = Some to → from ≤ to)
  ∧ (∀ from to, FreightSearch.delivery_date_from s = Some from →
                FreightSearch.delivery_date_to s = Some to → from ≤ to).

(** Every stored search has ordered ranges, and its [user_id] names a
    stored user (the foreign key of [models.py]). *)
Definition searches_valid (db : Store) : Prop :=
  map_Forall (λ _ s, ranges_ordered s) (freight_searches db).

Definition users_exist (db : Store) : Prop :=
  map_Forall (λ _ s, is_Some (users db !! FreightSearch.user_id s)) (freight_searches db).

(** The clock of the store has not run backwards: no stored search was
    created after [now]. *)
Definition clock_monotone (db : Store) (now : datetime) : Prop :=
  map_Forall (λ _ s, FreightSearch.created_at s ≤ now) (freight_searches db).

(** The store after a search was added under the key [id]. *)
Definition with_search (db : Store) (id : Z) (s : FreightSearch.t) : Store :=
  mkStore (users db) (freights db) (<[id := s]> (freight_searches db)).

(** ** More sample data *)

Module Fixture.

(** The row that posting [Sample.lane_body] at time 6000 adds to
    [Sample.lanes], and the store after it. *)
Definition posted : FreightSearch.row := (7, search_obj_of Sample.lane_body 6000).

Definition lanes_after : Store := with_search Sample.lanes 7 (search_obj_of Sample.lane_body 6000).

End Fixture.

(** One request that writes to the store: [POST /freight_searches/] with
    any body at any time, whether it succeeds or not, or
    [POST /freights/]. *)
Inductive writes : Store → Store → Prop :=
| writes_search db now payload : writes db (POST_freight_searches db now payload).2
| writes_freight db freight : writes db (create_freight db freight).2.

(** * Properties *)

(** ** Three-valued logic *)

Lemma holds_and_ a b : SQL.holds (SQL.and_ a b) ↔ SQL.holds a ∧ SQL.holds b.
Proof.
  unfold SQL.holds. destruct a as [[]|], b as [[]|]; simpl; split;
    (intros [??] || intros ?); (split || idtac); congruence.
Qed.

Lemma holds_or_ a b : SQL.holds (SQL.or_ a b) ↔ SQL.holds a ∨ SQL.holds b.
Proof.
  unfold SQL.holds. destruct a as [[]|], b as [[]|]; simpl; split;
    (intros [?|?] || intros ?); (congruence || (left; congruence) || (right; congruence)).
Qed.

Lemma holds_where_ conds : SQL.holds (SQL.where_ conds) ↔ Forall SQL.holds conds.
Proof.
  induction conds as [|c conds IH]; simpl.
  - split; [constructor | reflexivity].
  - rewrite holds_and_, IH, Forall_cons. reflexivity.
Qed.

Lemma holds_where_app cs1 cs2 :
  SQL.holds (SQL.where_ (cs1 ++ cs2))
  ↔ SQL.holds (SQL.where_ cs1) ∧ SQL.holds (SQL.where_ cs2).
Proof. rewrite !holds_where_, Forall_app. reflexivity. Qed.

Lemma holds_cmp {A} (op : A → A → bool) x y :
  SQL.holds (SQL.cmp op x y) ↔ ∃ a b, x = Some a ∧ y = Some b ∧ op a b = true.
Proof.
  unfold SQL.holds. destruct x as [a|], y as [b|]; simpl; split.
  all: try (intros (? & ? & ? & ? & ?); congruence).
  all: try discriminate.
  intros [= ?]. eauto.
Qed.

Lemma holds_is_null {A} (x : option A) : SQL.holds (SQL.is_null x) ↔ x = None.
Proof. unfold SQL.holds, SQL.is_null. destruct x; split; intros; congruence. Qed.

(** [col IN (v, NULL)] is TRUE exactly on the rows whose [col] is [v]: on a
    NULL column it is UNKNOWN, and so is it on any other value. *)
Lemma holds_in_value_or_null (x : option Z) (v : Z) :
  SQL.holds (SQL.in_ Z.eqb x [Some v; None]) ↔ x = Some v.
Proof.
  unfold SQL.in_. simpl. rewrite !holds_or_, !holds_cmp. split.
  - intros [(a & b & -> & [= <-] & ?%Z.eqb_eq)|[(? & ? & ? & ? & ?)|?]];
      [congruence | discriminate | discriminate].
  - intros ->. left. exists v, v. rewrite Z.eqb_refl. done.
Qed.

(** ** The matching predicate *)

Lemma float8_cmp_refl x : float8_cmp x x = Eq.
Proof.
  destruct x as [s|s| |s m e]; simpl; try done; destruct s; simpl;
    rewrite ?Z.compare_refl, ?Pos.compare_cont_refl; done.
Qed.

(** Values that the store holds equal pass both [<=] and [>=]. *)
Lemma float8_le_ge_of_eq a b :
  float8_cmp a b = Eq → float8_le a b = true ∧ float8_ge a b = true.
Proof. unfold float8_le, float8_ge. by intros ->. Qed.

Lemma float8_le_refl x : float8_le x x = true.
Proof. unfold float8_le. by rewrite float8_cmp_refl. Qed.

Lemma float8_ge_refl x : float8_ge x x = true.
Proof. unfold float8_ge. by rewrite float8_cmp_refl. Qed.

(** The route conditions hold exactly for the searches that name both
    codes of the freight: a search with a NULL code passes neither. *)
Lemma holds_route_conds f s :
  SQL.holds (SQL.where_ (route_conds f s))
  ↔ FreightSearch.pickup_code s = Some (Freight.pickup_code f)
    ∧ FreightSearch.delivery_code s = Some (Freight.delivery_code f).
Proof.
  unfold route_conds. rewrite holds_where_, !Forall_cons, !holds_in_value_or_null.
  split; [tauto|]. intros [??]. by repeat split.
Qed.

(** A bound passes when it is absent or on the right side of the value,
    the value itself included. *)
Lemma holds_bound {A} (op : A → A → bool) (bound : option A) (v : A) :
  SQL.holds (SQL.or_ (SQL.is_null bound) (SQL.cmp op bound (Some v)))
  ↔ bound = None ∨ ∃ b, bound = Some b ∧ op b v = true.
Proof.
  rewrite holds_or_, holds_is_null, holds_cmp. split.
  - intros [?|(a & b & -> & [= <-] & ?)]; [by left|right; eauto].
  - intros [?|(b & -> & ?)]; [by left|right; eauto].
Qed.

Lemma holds_price_conds f s :
  SQL.holds (SQL.where_ (price_conds f s))
  ↔ (FreightSearch.min_price s = None
     ∨ ∃ lo, FreightSearch.min_price s = Some lo ∧ float8_le lo (Freight.price f) = true)
    ∧ (FreightSearch.max_price s = None
       ∨ ∃ hi, FreightSearch.max_price s = Some hi ∧ float8_ge hi (Freight.price f) = true).
Proof.
  unfold price_conds. rewrite holds_where_, !Forall_cons, !holds_bound.
  split; [tauto|]. intros [??]. by repeat split.
Qed.

Lemma holds_pickup_conds f s :
  SQL.holds (SQL.where_ (pickup_conds f s))
  ↔ (FreightSearch.pickup_date_from s = None
     ∨ ∃ d, FreightSearch.pickup_date_from s = Some d ∧ d ≤ Freight.pickup_date f)
    ∧ (FreightSearch.pickup_date_to s = None
       ∨ ∃ d, FreightSearch.pickup_date_to s = Some d ∧ Freight.pickup_date f ≤ d).
Proof.
  unfold pickup_conds. rewrite holds_where_, !Forall_cons, !holds_bound.
  setoid_rewrite Z.leb_le. setoid_rewrite Z.geb_le.
  split; [tauto|]. intros [??]. by repeat split.
Qed.

Lemma holds_delivery_conds f s :
  SQL.holds (SQL.where_ (delivery_conds f s))
  ↔ (FreightSearch.delivery_date_from s = None
     ∨ ∃ d, FreightSearch.delivery_date_from s = Some d ∧ d ≤ Freight.delivery_date f)
    ∧ (FreightSearch.delivery_date_to s = None
       ∨ ∃ d, FreightSearch.delivery_date_to s = Some d ∧ Freight.delivery_date f ≤ d).
Proof.
  unfold delivery_conds. rewrite holds_where_, !Forall_cons, !holds_bound.
  setoid_rewrite Z.leb_le. setoid_rewrite Z.geb_le.
  split; [tauto|]. intros [??]. by repeat split.
Qed.

Lemma Matches_conds f s :
  Matches f s
  ↔ SQL.holds (SQL.where_ (route_conds f s)) ∧ SQL.holds (SQL.where_ (price_conds f s))
    ∧ SQL.holds (SQL.where_ (pickup_conds f s)) ∧ SQL.holds (SQL.where_ (delivery_conds f s)).
Proof. unfold Matches, match_conds. by rewrite !holds_where_app. Qed.

(** A search matches only the freights of the lane it names in full. *)
Lemma Matches_route f s :
  Matches f s →
  FreightSearch.pickup_code s = Some (Freight.pickup_code f)
  ∧ FreightSearch.delivery_code s = Some (Freight.delivery_code f).
Proof. intros [H _]%Matches_conds. by apply holds_route_conds. Qed.

(** No freight matches a search that leaves a route code unconstrained. *)
Lemma null_route_never_matches f s :
  FreightSearch.pickup_code s = None ∨ FreightSearch.delivery_code s = None →
  ¬ Matches f s.
Proof. intros [H|H] [??]%Matches_route; congruence. Qed.

(** The price band is inclusive at both ends: a bound equal to the price
    of the freight passes. *)
Lemma price_band_inclusive f s :
  FreightSearch.min_price s = None ∨ FreightSearch.min_price s = Some (Freight.price f) →
  FreightSearch.max_price s = None ∨ FreightSearch.max_price s = Some (Freight.price f) →
  SQL.holds (SQL.where_ (price_conds f s)).
Proof.
  intros Hmin Hmax. apply holds_price_conds. split.
  - destruct Hmin as [?|?]; [by left|right]. eexists. by rewrite float8_le_refl.
  - destruct Hmax as [?|?]; [by left|right]. eexists. by rewrite float8_ge_refl.
Qed.

(** On the lane of the freight, a search whose only other constraint is a
    price bound equal to the price matches. *)
Lemma on_lane_boundary_matches f s :
  FreightSearch.pickup_code s = Some (Freight.pickup_code f) →
  FreightSearch.delivery_code s = Some (Freight.delivery_code f) →
  FreightSearch.min_price s = None ∨ FreightSearch.min_price s = Some (Freight.price f) →
  FreightSearch.max_price s = None ∨ FreightSearch.max_price s = Some (Freight.price f) →
  FreightSearch.pickup_date_from s = None → FreightSearch.pickup_date_to s = None →
  FreightSearch.delivery_date_from s = None → FreightSearch.delivery_date_to s = None →
  Matches f s.
Proof.
  intros Hp Hd Hmin Hmax Hpf Hpt Hdf Hdt. apply Matches_conds.
  split; [by apply holds_route_conds|]. split; [by apply price_band_inclusive|].
  split; [apply holds_pickup_conds|apply holds_delivery_conds]; split; by left.
Qed.

(** ** The order of the result *)

#[global] Instance desc_total : Total desc.
Proof. intros r1 r2. unfold desc. lia. Qed.

#[global] Instance desc_trans : Transitive desc.
Proof. intros r1 r2 r3. unfold desc. lia. Qed.

#[global] Instance strictly_desc_trans : Transitive strictly_desc.
Proof. intros r1 r2 r3. unfold strictly_desc. lia. Qed.

Lemma strictly_desc_irrefl r : ¬ strictly_desc r r.
Proof. unfold strictly_desc. lia. Qed.

Lemma strictly_desc_before r1 r2 : strictly_desc r1 r2 ↔ before_cursor (cursor_of r1) r2.
Proof. unfold strictly_desc, before_cursor, cursor_of. simpl. lia. Qed.

Lemma desc_strictly r1 r2 :
  desc r1 r2 → FreightSearch.id r1 ≠ FreightSearch.id r2 → strictly_desc r1 r2.
Proof. unfold desc, strictly_desc. lia. Qed.

Lemma holds_keyset_conds ts n r :
  SQL.holds (SQL.where_ (keyset_conds (Some ts) (Some n) r)) ↔ before_cursor (ts, n) r.
Proof.
  unfold keyset_conds, before_cursor. rewrite holds_where_, Forall_singleton.
  rewrite holds_or_, holds_and_, !holds_cmp. simpl. split.
  - intros [(a & b & [= <-] & [= <-] & ?%Z.ltb_lt)
           |[(a & b & [= <-] & [= <-] & ?%Z.eqb_eq) (a' & b' & [= <-] & [= <-] & ?%Z.ltb_lt)]];
      [left | right]; done.
  - intros [?|[? ?]]; [left | right; split]; do 2 eexists;
      (split; [reflexivity|split; [reflexivity|]]);
      first [by apply Z.ltb_lt | by apply Z.eqb_eq].
Qed.

Lemma holds_keyset_conds_partial before_ts before_id r :
  before_ts = None ∨ before_id = None →
  keyset_conds before_ts before_id r = [].
Proof. intros [-> | ->]; [|destruct before_ts]; reflexivity. Qed.

(** ** The query *)

Lemma StronglySorted_filter {A} (R : relation A) (P : A → Prop) `{!∀ x, Decision (P x)} l :
  StronglySorted R l → StronglySorted R (filter P l).
Proof.
  induction 1 as [|x l Hl IH Hx]; [constructor|].
  rewrite filter_cons. destruct (decide (P x)); [|done].
  constructor; [done|]. apply Forall_forall. intros y [_ Hy]%list_elem_of_filter.
  rewrite Forall_forall in Hx. auto.
Qed.

Lemma elem_of_select_where table conds r :
  r ∈ select_where table conds
  ↔ SQL.holds (SQL.where_ (conds r)) ∧ table !! r.1 = Some r.2.
Proof.
  unfold select_where. rewrite list_elem_of_filter. destruct r as [k v].
  rewrite elem_of_map_to_list. done.
Qed.

Lemma NoDup_select_where table conds : NoDup (select_where table conds).*1.
Proof.
  unfold select_where. apply (sublist_NoDup _ (map_to_list table).*1).
  - apply NoDup_fst_map_to_list.
  - apply fmap_sublist, sublist_filter.
Qed.

Lemma elem_of_order_by_desc l r : r ∈ order_by_desc l ↔ r ∈ l.
Proof. unfold order_by_desc. by rewrite merge_sort_Permutation. Qed.

Lemma StronglySorted_order_by_desc l : StronglySorted desc (order_by_desc l).
Proof. apply StronglySorted_merge_sort; apply _. Qed.

(** Rows of one table that the order cannot tell apart are the same row. *)
Lemma desc_antisym_table (table : gmap Z FreightSearch.t) r1 r2 :
  table !! r1.1 = Some r1.2 → table !! r2.1 = Some r2.2 →
  desc r1 r2 → desc r2 r1 → r1 = r2.
Proof.
  destruct r1 as [k1 v1], r2 as [k2 v2]. unfold desc, FreightSearch.id. simpl.
  intros H1 H2 Hd1 Hd2. assert (k1 = k2) as -> by lia. congruence.
Qed.

(** On the rows of one table the order is total: of two distinct rows one
    comes strictly before the other. *)
Lemma strictly_desc_total_table (table : gmap Z FreightSearch.t) r1 r2 :
  table !! r1.1 = Some r1.2 → table !! r2.1 = Some r2.2 →
  r1 = r2 ∨ strictly_desc r1 r2 ∨ strictly_desc r2 r1.
Proof.
  intros H1 H2. destruct (decide (r1.1 = r2.1)) as [Heq|Hne].
  - left. destruct r1 as [k1 v1], r2 as [k2 v2]. simpl in *. subst k2. congruence.
  - right. destruct (total desc r1 r2); [left|right];
      (apply desc_strictly; [done|unfold FreightSearch.id; congruence]).
Qed.

(** A further condition can be applied to the ordered result instead of
    inside the [WHERE] clause. *)
Lemma order_by_select_where_app table conds1 conds2 :
  order_by_desc (select_where table (λ r, conds1 r ++ conds2 r))
  = filter (λ r, SQL.holds (SQL.where_ (conds2 r)))
      (order_by_desc (select_where table conds1)).
Proof.
  apply (StronglySorted_unique_strong desc).
  - intros r1 r2 [_ H1]%elem_of_order_by_desc%elem_of_select_where
      [_ [_ H2]%elem_of_order_by_desc%elem_of_select_where]%list_elem_of_filter.
    by apply (desc_antisym_table table).
  - apply StronglySorted_order_by_desc.
  - apply StronglySorted_filter, StronglySorted_order_by_desc.
  - unfold order_by_desc. rewrite !merge_sort_Permutation. unfold select_where.
    rewrite list_filter_filter. erewrite list_filter_iff; [done|].
    intros r. simpl. rewrite holds_where_app. tauto.
Qed.

Lemma NoDup_match_set db f : NoDup (match_set db f).*1.
Proof.
  unfold match_set, order_by_desc. rewrite merge_sort_Permutation.
  apply NoDup_select_where.
Qed.

Lemma StronglySorted_desc_strictly l :
  NoDup l.*1 → StronglySorted desc l → StronglySorted strictly_desc l.
Proof.
  induction l as [|r l IH]; [constructor|].
  rewrite fmap_cons, NoDup_cons. intros [Hr Hl] [Hs Hall]%StronglySorted_inv.
  constructor; [auto|]. rewrite Forall_forall in Hall |- *.
  intros r' Hr'. apply desc_strictly; [auto|].
  intros Heq. apply Hr. unfold FreightSearch.id in Heq. rewrite Heq.
  by apply list_elem_of_fmap_2.
Qed.

(** The match set is strictly ordered by [(created_at, id)] descending. *)
Lemma match_set_strictly_desc db f : StronglySorted strictly_desc (match_set db f).
Proof.
  apply StronglySorted_desc_strictly; [apply NoDup_match_set|].
  apply StronglySorted_order_by_desc.
Qed.

Lemma elem_of_match_set db f r :
  r ∈ match_set db f ↔ Matches f r.2 ∧ freight_searches db !! r.1 = Some r.2.
Proof.
  unfold match_set. rewrite elem_of_order_by_desc, elem_of_select_where. done.
Qed.

Lemma cursor_pred_holds before_ts before_id r :
  SQL.holds (SQL.where_ (keyset_conds before_ts before_id r))
  ↔ cursor_pred before_ts before_id r.
Proof.
  destruct before_ts as [ts|], before_id as [n|]; simpl;
    [apply holds_keyset_conds | | | ]; (split; [done | intros _; reflexivity]).
Qed.

(** ** The endpoint *)

Lemma query_errors_nil limit offset :
  query_errors limit offset = [] ↔ 1 ≤ limit ≤ 1000 ∧ 0 ≤ offset.
Proof.
  unfold query_errors. do 2 case_bool_decide; simpl; split; try done; try lia.
  all: intros [??]; lia.
Qed.

Lemma next_cursor_cursor_headers c : next_cursor (cursor_headers c) = Some c.
Proof. destruct c. reflexivity. Qed.

Lemma next_cursor_empty : next_cursor ∅ = None.
Proof. reflexivity. Qed.

Lemma length_limit_offset {A} limit offset (l : list A) :
  0 ≤ limit → Z.of_nat (length (limit_offset limit offset l)) ≤ limit.
Proof. intros ?. unfold limit_offset. rewrite length_take. lia. Qed.

(** The rows that the query of the handler returns. *)
Lemma handler_rows db f limit offset before_ts before_id :
  limit_offset limit offset
    (order_by_desc
       (select_where (freight_searches db)
          (λ r, match_conds f (FreightSearch.cols r) ++ keyset_conds before_ts before_id r)))
  = page_of db f limit offset before_ts before_id.
Proof.
  unfold page_of, match_set. f_equal.
  rewrite (order_by_select_where_app _ (λ r, match_conds f (FreightSearch.cols r))).
  apply list_filter_iff. intros r. apply cursor_pred_holds.
Qed.

(** What a call answers when the freight exists and the query parameters
    respect their declared bounds. *)
Lemma GET_find_matches_found db freight_id f limit offset before_ts before_id :
  freights db !! freight_id = Some f →
  1 ≤ default 200 limit ≤ 1000 → 0 ≤ default 0 offset →
  let rows := page_of db f (default 200 limit) (default 0 offset) before_ts before_id in
  GET_find_matches db freight_id limit offset before_ts before_id
  = Ok (rows,
        match last rows with
        | Some r => if bool_decide (Z.of_nat (length rows) = default 200 limit)
                    then cursor_headers (cursor_of r) else ∅
        | None => ∅
        end).
Proof.
  intros Hf HL HO rows. unfold GET_find_matches.
  rewrite (proj2 (query_errors_nil _ _)) by done.
  unfold find_matches. rewrite Hf. cbv zeta. rewrite handler_rows. fold rows.
  case_bool_decide as Hlen.
  - destruct (last rows) as [r|] eqn:Hlast; [done|].
    apply last_None in Hlast. rewrite Hlast in Hlen. simpl in Hlen. lia.
  - by destruct (last rows).
Qed.

Lemma GET_find_matches_not_found db freight_id limit offset before_ts before_id :
  freights db !! freight_id = None →
  1 ≤ default 200 limit ≤ 1000 → 0 ≤ default 0 offset →
  GET_find_matches db freight_id limit offset before_ts before_id
  = Raise (HTTPException 404 "Freight not found").
Proof.
  intros Hf HL HO. unfold GET_find_matches.
  rewrite (proj2 (query_errors_nil _ _)) by done.
  unfold find_matches. by rewrite Hf.
Qed.

Lemma GET_find_matches_invalid db freight_id limit offset before_ts before_id :
  ¬ (1 ≤ default 200 limit ≤ 1000 ∧ 0 ≤ default 0 offset) →
  GET_find_matches db freight_id limit offset before_ts before_id
  = Raise (RequestValidationError (query_errors (default 200 limit) (default 0 offset))).
Proof.
  intros H. unfold GET_find_matches. rewrite <-query_errors_nil in H.
  by destruct (query_errors _ _).
Qed.

(** Every answer with a page comes from an existing freight and from query
    parameters within their bounds. *)
Lemma GET_find_matches_Ok_inv db freight_id limit offset before_ts before_id rows headers :
  GET_find_matches db freight_id limit offset before_ts before_id = Ok (rows, headers) →
  ∃ f, freights db !! freight_id = Some f
       ∧ 1 ≤ default 200 limit ≤ 1000 ∧ 0 ≤ default 0 offset.
Proof.
  intros H.
  destruct (decide (1 ≤ default 200 limit ≤ 1000 ∧ 0 ≤ default 0 offset)) as [[HL HO]|Hbad].
  - destruct (freights db !! freight_id) as [f|] eqn:Hf; [by exists f|].
    by rewrite GET_find_matches_not_found in H.
  - by rewrite GET_find_matches_invalid in H.
Qed.

(** ** The handler *)

Lemma find_matches_found db freight_id f response limit offset before_ts before_id :
  freights db !! freight_id = Some f →
  let rows := page_of db f limit offset before_ts before_id in
  find_matches db freight_id response limit offset before_ts before_id
  = match response with
    | Some headers =>
      if bool_decide (Z.of_nat (length rows) = limit) then
        match last rows with
        | Some r => Ok (rows, Some (cursor_headers (cursor_of r) ∪ headers))
        | None => Raise IndexError
        end
      else Ok (rows, Some headers)
    | None => Ok (rows, None)
    end.
Proof.
  intros Hf rows. unfold find_matches. rewrite Hf. cbv zeta.
  rewrite handler_rows. fold rows. destruct response as [headers|]; [|done].
  case_bool_decide; [|done]. destruct (last rows) as [r|]; [|done].
  do 3 f_equal. unfold cursor_headers, cursor_of. simpl.
  rewrite <-!insert_union_l, (left_id_L ∅ (∪)). done.
Qed.

Lemma find_matches_Ok_inv db freight_id response limit offset before_ts before_id rows response' :
  find_matches db freight_id response limit offset before_ts before_id = Ok (rows, response') →
  ∃ f, freights db !! freight_id = Some f
       ∧ rows = page_of db f limit offset before_ts before_id.
Proof.
  destruct (freights db !! freight_id) as [f|] eqn:Hf.
  - rewrite (find_matches_found _ _ f) by done. cbv zeta. intros H. exists f. split; [done|].
    destruct response; [|congruence]. case_bool_decide; [|congruence].
    destruct (last _); [congruence|discriminate].
  - unfold find_matches. rewrite Hf. discriminate.
Qed.

(** The page of an answer of the endpoint is the page of the handler. *)
Lemma GET_find_matches_handler db freight_id limit offset before_ts before_id rows headers :
  GET_find_matches db freight_id limit offset before_ts before_id = Ok (rows, headers) →
  ∃ response',
    find_matches db freight_id (Some ∅) (default 200 limit) (default 0 offset)
      before_ts before_id = Ok (rows, response').
Proof.
  unfold GET_find_matches. destruct (query_errors _ _); [|discriminate].
  destruct (find_matches _ _ _ _ _ _ _) as [[rows' response']|]; [|discriminate].
  intros [= <- _]. by exists response'.
Qed.

(** ** Pages *)

Lemma StronglySorted_take {A} (R : relation A) n l :
  StronglySorted R l → StronglySorted R (take n l).
Proof. rewrite <-(take_drop n l) at 1. apply StronglySorted_app_1_l. Qed.

Lemma StronglySorted_drop {A} (R : relation A) n l :
  StronglySorted R l → StronglySorted R (drop n l).
Proof. rewrite <-(take_drop n l) at 1. apply StronglySorted_app_1_r. Qed.

Lemma elem_of_limit_offset {A} limit offset (l : list A) x :
  x ∈ limit_offset limit offset l → x ∈ l.
Proof.
  unfold limit_offset. intros H%(subseteq_take (Z.to_nat limit)).
  by apply (subseteq_drop (Z.to_nat offset)).
Qed.

Lemma page_of_strictly_desc db f limit offset before_ts before_id :
  StronglySorted strictly_desc (page_of db f limit offset before_ts before_id).
Proof.
  unfold page_of, limit_offset.
  apply StronglySorted_take, StronglySorted_drop, StronglySorted_filter,
    match_set_strictly_desc.
Qed.

Lemma elem_of_page_of db f limit offset before_ts before_id r :
  r ∈ page_of db f limit offset before_ts before_id →
  cursor_pred before_ts before_id r ∧ r ∈ match_set db f.
Proof. intros H%elem_of_limit_offset. by apply list_elem_of_filter in H. Qed.

Lemma StronglySorted_last {A} (R : relation A) l x y :
  StronglySorted R l → last l = Some x → y ∈ l → y = x ∨ R y x.
Proof.
  intros Hl [l' ->]%last_Some [Hy|Hy%list_elem_of_singleton]%elem_of_app; [|by left].
  right. apply (StronglySorted_app_1_elem_of R l' [x]); [done..|]. by apply list_elem_of_singleton.
Qed.

(** With no response object to write to, the handler returns the page and
    announces no cursor. *)
Lemma find_matches_without_response db freight_id f limit offset before_ts before_id :
  freights db !! freight_id = Some f →
  find_matches db freight_id None limit offset before_ts before_id
  = Ok (page_of db f limit offset before_ts before_id, None).
Proof. intros Hf. by rewrite (find_matches_found _ _ f). Qed.

(** The cursor of an answer designates the last row of its page. *)
Lemma GET_find_matches_cursor db freight_id limit offset before_ts before_id rows headers c :
  GET_find_matches db freight_id limit offset before_ts before_id = Ok (rows, headers) →
  next_cursor headers = Some c →
  ∃ r, last rows = Some r ∧ c = cursor_of r
       ∧ Z.of_nat (length rows) = default 200 limit.
Proof.
  intros H Hc. destruct (GET_find_matches_Ok_inv _ _ _ _ _ _ _ _ H) as (f & Hf & HL & HO).
  rewrite (GET_find_matches_found _ _ f) in H by done. cbv zeta in H.
  injection H as <- <-.
  destruct (last _) as [r|]; [|by rewrite next_cursor_empty in Hc].
  case_bool_decide; [|by rewrite next_cursor_empty in Hc].
  rewrite next_cursor_cursor_headers in Hc. injection Hc as <-. by exists r.
Qed.

(** The rows of a page obey the cursor of the call. *)
Lemma find_matches_cursor_pred db freight_id response limit offset before_ts before_id
    rows response' :
  find_matches db freight_id response limit offset before_ts before_id = Ok (rows, response') →
  ∀ r, r ∈ rows → cursor_pred before_ts before_id r.
Proof.
  intros (f & _ & ->)%find_matches_Ok_inv r Hr. by apply elem_of_page_of in Hr as [Hr _].
Qed.

Lemma GET_find_matches_cursor_pred db freight_id limit offset before_ts before_id rows headers :
  GET_find_matches db freight_id limit offset before_ts before_id = Ok (rows, headers) →
  ∀ r, r ∈ rows → cursor_pred before_ts before_id r.
Proof.
  intros [response' H]%GET_find_matches_handler. by eapply find_matches_cursor_pred.
Qed.

(** ** Keyset sessions *)

Lemma filter_all {A} (P : A → Prop) `{!∀ x, Decision (P x)} l :
  Forall P l → filter P l = l.
Proof.
  induction 1 as [|x l Hx _ IH]; [done|]. by rewrite filter_cons_True, IH.
Qed.

Lemma filter_none {A} (P : A → Prop) `{!∀ x, Decision (P x)} l :
  Forall (λ x, ¬ P x) l → filter P l = [].
Proof.
  induction 1 as [|x l Hx _ IH]; [done|]. by rewrite filter_cons_False.
Qed.

(** In a strictly ordered list the rows before the cursor of a row are
    the rows that follow it. *)
Lemma filter_before_cursor_suffix pre r suf :
  StronglySorted strictly_desc (pre ++ r :: suf) →
  filter (before_cursor (cursor_of r)) (pre ++ r :: suf) = suf.
Proof.
  intros Hs. rewrite filter_app, filter_cons_False.
  2:{ rewrite <-strictly_desc_before. apply strictly_desc_irrefl. }
  rewrite filter_none, filter_all; [done| |].
  - apply StronglySorted_app_1_r, StronglySorted_inv in Hs as [_ Hall].
    eapply Forall_impl; [exact Hall|]. intros r'. by rewrite strictly_desc_before.
  - apply Forall_forall. intros r' Hr'. rewrite <-strictly_desc_before. intros Hafter.
    assert (strictly_desc r' r) as Hbefore.
    { apply (StronglySorted_app_1_elem_of _ _ _ _ _ Hs Hr'). by left. }
    apply (strictly_desc_irrefl r). by etrans.
Qed.

Section session.

Context (db : Store) (freight_id : Z) (f : Freight.t) (L : Z).
Hypothesis freight_found : freights db !! freight_id = Some f.
Hypothesis limit_in_bounds : 1 ≤ L ≤ 1000.

(** One call of a session whose cursor admits exactly the rows [rem] of the
    match set: the page is the first [L] rows of [rem], and the answer
    announces the cursor of the last of them when there are [L]. *)
Lemma keyset_session_call cursor rem :
  filter (cursor_pred (fst <$> cursor) (snd <$> cursor)) (match_set db f) = rem →
  let rows := take (Z.to_nat L) rem in
  GET_find_matches db freight_id (Some L) None (fst <$> cursor) (snd <$> cursor)
  = Ok (rows,
        match last rows with
        | Some r => if bool_decide (Z.of_nat (length rows) = L)
                    then cursor_headers (cursor_of r) else ∅
        | None => ∅
        end).
Proof.
  intros Hrem rows. rewrite (GET_find_matches_found _ _ f) by (simpl; (done || lia)).
  cbv zeta. unfold page_of, limit_offset. simpl default. rewrite Hrem.
  change (Z.to_nat 0) with 0%nat. by rewrite drop_0.
Qed.

(** A session that has come to the suffix [rem] of the match set returns,
    page after page, exactly [rem]. *)
Lemma keyset_session_suffix fuel :
  ∀ pre rem cursor,
    match_set db f = pre ++ rem →
    filter (cursor_pred (fst <$> cursor) (snd <$> cursor)) (match_set db f) = rem →
    (length rem < fuel)%nat →
    ∃ pages, keyset_session fuel db freight_id L cursor = Some pages
             ∧ concat pages = rem
             ∧ Forall (λ page, Z.of_nat (length page) ≤ L) pages.
Proof.
  induction fuel as [|fuel IH]; intros pre rem cursor Hpre Hrem Hfuel; [lia|].
  simpl. rewrite (keyset_session_call cursor rem Hrem). cbv zeta.
  set (rows := take (Z.to_nat L) rem).
  assert (Z.of_nat (length rows) ≤ L) as Hle by (unfold rows; rewrite length_take; lia).
  case_bool_decide as Hshort.
  - exists [rows]. split; [done|]. split; [|by repeat constructor].
    simpl. rewrite app_nil_r. unfold rows in *. rewrite length_take in Hshort.
    apply take_ge. lia.
  - assert (Z.of_nat (length rows) = L) as Hfull by lia.
    destruct (last rows) as [r|] eqn:Hlast.
    2:{ apply last_None in Hlast. rewrite Hlast in Hfull. simpl in Hfull. lia. }
    rewrite bool_decide_eq_true_2 by done. rewrite next_cursor_cursor_headers.
    apply last_Some in Hlast as [init Hinit].
    set (suf := drop (Z.to_nat L) rem).
    assert (rem = init ++ r :: suf) as Hsplit.
    { rewrite <-(take_drop (Z.to_nat L) rem) at 1. fold rows suf. rewrite Hinit.
      by rewrite <-app_assoc. }
    assert (length suf < fuel)%nat as Hsuf.
    { unfold suf. rewrite length_drop. unfold rows in Hfull.
      rewrite length_take in Hfull. lia. }
    clearbody rows suf. subst rows. rewrite Hsplit in Hpre |- *. clear Hsplit Hrem Hfuel.
    destruct (IH (pre ++ init ++ [r]) suf (Some (cursor_of r)))
      as (pages & -> & Hpages & Hsizes); [| |done|].
    + rewrite Hpre, <-!app_assoc. done.
    + simpl. pose proof (match_set_strictly_desc db f) as Hs.
      rewrite Hpre, app_assoc in Hs |- *.
      by apply filter_before_cursor_suffix.
    + exists ((init ++ [r]) :: pages). split; [done|]. split; [|by constructor].
      simpl. rewrite Hpages, <-app_assoc. done.
Qed.

End session.

Lemma length_match_set db f :
  length (match_set db f) = size (filter (λ r, Matches f r.2) (freight_searches db)).
Proof.
  unfold match_set, order_by_desc. rewrite merge_sort_Permutation.
  rewrite map_filter_alt, <-length_map_to_list.
  rewrite map_to_list_to_map; [done|]. apply NoDup_select_where.
Qed.

(** ** Creating a search *)

Lemma model_validate_violated payload :
  invariant_violated payload →
  ∃ errors, errors ≠ [] ∧ model_validate payload = Raise (RequestValidationError errors).
Proof.
  unfold model_validate.
  set (errors := error_of _ ++ error_of _ ++ error_of _).
  intros Hv. exists errors. assert (errors ≠ []) as Hne; [|by destruct errors].
  unfold errors. intros Hnil.
  apply app_eq_nil in Hnil as [Hprice Hnil]. apply app_eq_nil in Hnil as [Hpickup Hdelivery].
  destruct Hv as [(lo & hi & Hlo & Hhi & Hlt)|[(from & to & Hfrom & Hto & Hlt)
                                              |(from & to & Hfrom & Hto & Hlt)]].
  - rewrite Hlo, Hhi in Hprice. simpl in Hprice. by rewrite Hlt in Hprice.
  - rewrite Hfrom, Hto in Hpickup. simpl in Hpickup.
    by rewrite (proj2 (Z.ltb_lt _ _) Hlt) in Hpickup.
  - rewrite Hfrom, Hto in Hdelivery. simpl in Hdelivery.
    by rewrite (proj2 (Z.ltb_lt _ _) Hlt) in Hdelivery.
Qed.

Lemma model_validate_respected payload :
  ¬ invariant_violated payload → model_validate payload = Ok payload.
Proof.
  unfold invariant_violated, price_inverted, pickup_inverted, delivery_inverted, model_validate.
  intros Hv.
  destruct (FreightSearchCreate.min_price payload) as [lo|],
    (FreightSearchCreate.max_price payload) as [hi|]; simpl;
    try (destruct (py_float_lt hi lo) eqn:?; [exfalso; apply Hv; left; eauto 6|]); simpl.
  all: destruct (FreightSearchCreate.pickup_date_from payload) as [from|],
    (FreightSearchCreate.pickup_date_to payload) as [to|]; simpl;
    try (destruct (Z.ltb_spec to from); [exfalso; apply Hv; right; left; eauto 6|]); simpl.
  all: destruct (FreightSearchCreate.delivery_date_from payload) as [from'|],
    (FreightSearchCreate.delivery_date_to payload) as [to'|]; simpl;
    try (destruct (Z.ltb_spec to' from'); [exfalso; apply Hv; right; right; eauto 6|]); simpl.
  all: reflexivity.
Qed.

Lemma model_validate_Ok payload search :
  model_validate payload = Ok search → search = payload.
Proof. unfold model_validate. destruct (_ ++ _); [congruence|discriminate]. Qed.

Lemma create_freight_search_failure db now search e db' :
  create_freight_search db now search = (Raise e, db') → db' = db.
Proof.
  unfold create_freight_search. destruct (users db !! _); [discriminate|congruence].
Qed.

(** The id of a new row is not in use. *)
Lemma next_id_fresh {A} (table : gmap Z A) : table !! next_id table = None.
Proof.
  apply not_elem_of_dom. intros Hin. apply elem_of_dom in Hin as [x Hx].
  apply elem_of_map_to_list in Hx. apply (list_elem_of_fmap_2 fst) in Hx. simpl in Hx.
  unfold next_id in Hx. revert Hx. generalize ((map_to_list table).*1). intros ks.
  assert (∀ k, k ∈ ks → k ≤ foldr Z.max 0 ks) as Hmax.
  { induction ks as [|k' ks IH]; intros k Hk; [by apply elem_of_nil in Hk|].
    simpl. apply elem_of_cons in Hk as [->|Hk]; [lia|]. specialize (IH k Hk). lia. }
  intros Hk. apply Hmax in Hk. lia.
Qed.

(** A valid request of a known user adds one row and touches nothing
    else. *)
Lemma POST_freight_searches_created db now payload user :
  ¬ invariant_violated payload →
  users db !! FreightSearchCreate.user_id payload = Some user →
  ∃ id, freight_searches db !! id = None
    ∧ POST_freight_searches db now payload
      = (Ok (id, search_obj_of payload now),
         mkStore (users db) (freights db)
           (<[id := search_obj_of payload now]> (freight_searches db))).
Proof.
  intros Hv Hu. exists (next_id (freight_searches db)). split; [apply next_id_fresh|].
  unfold POST_freight_searches. rewrite model_validate_respected by done.
  unfold create_freight_search. by rewrite Hu.
Qed.

(** ** The tests of the repository, run on the model *)

(** Closes a goal about a closed call by running the model. *)
Ltac run := vm_compute; reflexivity.


(** [test_match_found]: the search posted on the lane of freight 1, with
    the price band 200 to 350, is among its matches. *)
Example test_match_found :
  ∃ search db rows headers,
    POST_freight_searches (Sample.store []) 1000 Sample.lane_body = (Ok search, db)
    ∧ GET_find_matches db 1 None None None None = Ok (rows, headers)
    ∧ FreightSearch.id search ∈ rows.*1.
Proof.
  eexists _, _, _, _. split; [run|].
  split; [run|]. vm_compute. by left.
Qed.

(** [test_no_match]: a search on another pickup code is not. *)
Example test_no_match :
  ∃ search db rows headers,
    POST_freight_searches (Sample.store []) 1000 Sample.other_lane_body = (Ok search, db)
    ∧ GET_find_matches db 1 None None None None = Ok (rows, headers)
    ∧ Forall (λ m, FreightSearch.pickup_code (FreightSearch.cols m) ≠ Some 99999) rows.
Proof.
  eexists _, _, _, _. split; [run|].
  split; [run|]. constructor.
Qed.

(** [test_keyset_headers_present]: with one match and [limit=1] the page
    is full and both headers are set. *)
Example test_keyset_headers_present :
  ∃ search db rows headers,
    POST_freight_searches (Sample.store []) 1000 Sample.lane_body = (Ok search, db)
    ∧ GET_find_matches db 1 (Some 1) None None None = Ok (rows, headers)
    ∧ is_Some (headers !! "X-Next-Before-Ts")
    ∧ is_Some (headers !! "X-Next-Before-Id").
Proof.
  eexists _, _, _, _. split; [run|].
  split; [run|]. split; by eexists.
Qed.

(** The scenario of the specification: B, on another lane, is posted
    first and A, on the lane of freight 1, second.  The first page of size
    1 is [A] with the cursor of A; the page after that cursor is empty and
    announces no cursor. *)
Example scenario_two_searches :
  ∃ B db1 A db2 headers,
    POST_freight_searches (Sample.store []) 1000 Sample.other_lane_body = (Ok B, db1)
    ∧ POST_freight_searches db1 2000 Sample.lane_body = (Ok A, db2)
    ∧ GET_find_matches db2 1 (Some 1) None None None = Ok ([A], headers)
    ∧ next_cursor headers = Some (cursor_of A)
    ∧ GET_find_matches db2 1 (Some 1) None (Some (cursor_of A).1) (Some (cursor_of A).2)
      = Ok ([], ∅).
Proof.
  eexists _, _, _, _, _. split; [run|].
  split; [run|]. split; [run|].
  split; run.
Qed.

(** * The claims *)

(** C1 (the code departs from it).  A search all of whose optional fields
    are null ought to match every freight.  The route conditions are
    written [col IN (value, NULL)], which is UNKNOWN on a NULL column, so
    the search with no constraint is not in the match set of freight 1:
    the endpoint answers with an empty page. *)
Theorem unconstrained_search_not_matched :
  let S := Sample.unconstrained 1000 in
  let db := Sample.store [(1, S)] in
  freight_searches db !! 1 = Some S
  ∧ SQL.where_ (match_conds Sample.freight1 S) = None
  ∧ ¬ Matches Sample.freight1 S
  ∧ match_set db Sample.freight1 = []
  ∧ GET_find_matches db 1 None None None None = Ok ([], ∅).
Proof.
  cbv zeta. split; [reflexivity|]. split; [vm_compute; reflexivity|].
  split; [by apply null_route_never_matches; left|].
  split; vm_compute; reflexivity.
Qed.

(** C2, as amended: for every existing freight and every page size [L]
    within the bounds of the endpoint, [1 ≤ L ≤ 1000], a keyset session
    that starts without a cursor and follows the announced cursors until a
    page has fewer than [L] rows comes to an end (any number of calls
    above the number [N] of matching rows is enough) and its pages hold
    exactly the [N] matching rows of the store: none twice, none left out,
    in result order. *)
Theorem keyset_session_complete db freight_id f L fuel :
  freights db !! freight_id = Some f →
  1 ≤ L ≤ 1000 →
  (size (filter (λ r, Matches f r.2) (freight_searches db)) < fuel)%nat →
  ∃ pages,
    keyset_session fuel db freight_id L None = Some pages
    ∧ length (concat pages) = size (filter (λ r, Matches f r.2) (freight_searches db))
    ∧ NoDup (concat pages)
    ∧ (∀ r, r ∈ concat pages ↔ Matches f r.2 ∧ freight_searches db !! r.1 = Some r.2)
    ∧ concat pages = match_set db f
    ∧ Forall (λ page, Z.of_nat (length page) ≤ L) pages.
Proof.
  intros Hf HL Hfuel. rewrite <-length_match_set in Hfuel |- *.
  destruct (keyset_session_suffix db freight_id f L Hf HL fuel [] (match_set db f) None)
    as (pages & Hpages & Hconcat & Hsizes); [done| |done|].
  { simpl. apply filter_all, Forall_forall. done. }
  exists pages. rewrite Hconcat. split; [done|]. split; [done|].
  split; [eapply NoDup_fmap_1, NoDup_match_set|].
  split; [intros r; apply elem_of_match_set|done].
Qed.

Lemma keyset_session_complete_witness :
  ∃ pages,
    keyset_session 6 Sample.lanes 1 2 None = Some pages
    ∧ (λ page : list (Z * FreightSearch.t), page.*1) <$> pages = [[5; 4]; [3; 2]; [1]]
    ∧ length (concat pages)
      = size (filter (λ r, Matches Sample.freight1 r.2) (freight_searches Sample.lanes))
    ∧ NoDup (concat pages).
Proof.
  destruct (keyset_session_complete Sample.lanes 1 Sample.freight1 2 6)
    as (pages & Hpages & Hlen & Hnodup & _); [reflexivity|lia|vm_compute; lia|].
  exists pages. split; [exact Hpages|]. split; [|by split].
  clear Hlen Hnodup. vm_compute in Hpages. injection Hpages as <-. reflexivity.
Defined.

(** C2, as stated, fails for the page sizes above 1000: the endpoint
    rejects [limit=1001] before the handler runs, so a session with that
    page size returns no page although five rows match. *)
Lemma keyset_session_limit_too_large :
  0 < 1001
  ∧ (match_set Sample.lanes Sample.freight1).*1 = [5; 4; 3; 2; 1]
  ∧ GET_find_matches Sample.lanes 1 (Some 1001) None None None
    = Raise (RequestValidationError ["limit"])
  ∧ ¬ ∃ fuel pages, keyset_session fuel Sample.lanes 1 1001 None = Some pages.
Proof.
  split; [lia|]. split; [vm_compute; reflexivity|]. split; [vm_compute; reflexivity|].
  intros ([|fuel] & pages & H); discriminate H.
Qed.

(** C3.  When both [before_ts] and [before_id] are supplied, every row of
    the page satisfies [created_at < before_ts], or [created_at = before_ts]
    and [id < before_id]: only rows strictly before the cursor in the
    [(created_at, id)] descending order are returned.  This holds of the
    handler for all its other arguments, and so of the endpoint. *)
Theorem find_matches_only_before_cursor db freight_id before_ts before_id :
  (∀ response limit offset rows response',
     find_matches db freight_id response limit offset (Some before_ts) (Some before_id)
       = Ok (rows, response') →
     ∀ r, r ∈ rows →
       FreightSearch.created_at (FreightSearch.cols r) < before_ts
       ∨ (FreightSearch.created_at (FreightSearch.cols r) = before_ts
          ∧ FreightSearch.id r < before_id))
  ∧ (∀ limit offset rows headers,
       GET_find_matches db freight_id limit offset (Some before_ts) (Some before_id)
         = Ok (rows, headers) →
       ∀ r, r ∈ rows →
         FreightSearch.created_at (FreightSearch.cols r) < before_ts
         ∨ (FreightSearch.created_at (FreightSearch.cols r) = before_ts
            ∧ FreightSearch.id r < before_id)).
Proof.
  split.
  - intros response limit offset rows response' H r Hr.
    apply (find_matches_cursor_pred _ _ _ _ _ _ _ _ _ H r Hr).
  - intros limit offset rows headers H r Hr.
    apply (GET_find_matches_cursor_pred _ _ _ _ _ _ _ _ H r Hr).
Qed.

Lemma find_matches_only_before_cursor_witness :
  ∃ rows headers,
    GET_find_matches Sample.lanes 1 (Some 2) None (Some 3000) (Some 4) = Ok (rows, headers)
    ∧ rows.*1 = [3; 2]
    ∧ ∀ r, r ∈ rows →
        FreightSearch.created_at (FreightSearch.cols r) < 3000
        ∨ (FreightSearch.created_at (FreightSearch.cols r) = 3000 ∧ FreightSearch.id r < 4).
Proof.
  eexists _, _. split; [vm_compute; reflexivity|]. split; [reflexivity|].
  eapply (proj2 (find_matches_only_before_cursor Sample.lanes 1 3000 4) (Some 2) None).
  vm_compute. reflexivity.
Defined.

(** C4.  An answer carries the continuation cursor exactly when its page
    has exactly [limit] rows, and the cursor is then the
    [(created_at, id)] of the last row of the page; a page never has more
    than [limit] rows, and with fewer rows neither header is set. *)
Theorem find_matches_next_cursor db freight_id limit offset before_ts before_id rows headers :
  GET_find_matches db freight_id limit offset before_ts before_id = Ok (rows, headers) →
  Z.of_nat (length rows) ≤ default 200 limit
  ∧ (Z.of_nat (length rows) = default 200 limit →
       ∃ r, last rows = Some r
            ∧ headers !! "X-Next-Before-Ts"
              = Some (isoformat (FreightSearch.created_at (FreightSearch.cols r)))
            ∧ headers !! "X-Next-Before-Id" = Some (str (FreightSearch.id r))
            ∧ next_cursor headers = Some (cursor_of r))
  ∧ (Z.of_nat (length rows) < default 200 limit →
       headers !! "X-Next-Before-Ts" = None
       ∧ headers !! "X-Next-Before-Id" = None
       ∧ next_cursor headers = None).
Proof.
  intros H. destruct (GET_find_matches_Ok_inv _ _ _ _ _ _ _ _ H) as (f & Hf & HL & HO).
  rewrite (GET_find_matches_found _ _ f) in H by done. cbv zeta in H.
  injection H as <- <-.
  set (rows := page_of db f (default 200 limit) (default 0 offset) before_ts before_id).
  split; [apply length_limit_offset; lia|]. split.
  - intros Hlen. destruct (last rows) as [r|] eqn:Hlast.
    + exists r. rewrite bool_decide_eq_true_2 by done.
      split; [done|]. destruct r as [n s]. done.
    + apply last_None in Hlast. rewrite Hlast in Hlen. simpl in Hlen. lia.
  - intros Hlen. destruct (last rows); [|done].
    rewrite bool_decide_eq_false_2 by lia. done.
Qed.

Lemma find_matches_next_cursor_witness :
  ∃ rows headers,
    GET_find_matches Sample.lanes 1 (Some 2) None None None = Ok (rows, headers)
    ∧ rows.*1 = [5; 4]
    ∧ next_cursor headers = Some (3000, 4).
Proof.
  eexists _, _. split; [vm_compute; reflexivity|]. split; [reflexivity|].
  edestruct (find_matches_next_cursor Sample.lanes 1 (Some 2) None None None)
    as (_ & Hfull & _); [vm_compute; reflexivity|].
  destruct (Hfull ltac:(reflexivity)) as (r & Hlast & _ & _ & Hcursor).
  injection Hlast as <-. exact Hcursor.
Defined.

(** C5.  Every page, of the handler and of the endpoint, is strictly
    ordered by [(created_at, id)] descending; when a page announces a
    cursor, the page that any call with that cursor returns shares no row
    with it, so two successive pages of a keyset session never overlap; and
    the order is total on the rows of the table, whose ids are unique. *)
Theorem find_matches_ordered_no_overlap db freight_id :
  (∀ response limit offset before_ts before_id rows response',
     find_matches db freight_id response limit offset before_ts before_id
       = Ok (rows, response') →
     StronglySorted strictly_desc rows)
  ∧ (∀ limit offset before_ts before_id rows headers,
       GET_find_matches db freight_id limit offset before_ts before_id = Ok (rows, headers) →
       StronglySorted strictly_desc rows
       ∧ ∀ c limit' offset' rows' headers',
           next_cursor headers = Some c →
           GET_find_matches db freight_id limit' offset' (Some c.1) (Some c.2)
             = Ok (rows', headers') →
           ∀ r, r ∈ rows → r ∉ rows')
  ∧ (∀ r1 r2,
       freight_searches db !! FreightSearch.id r1 = Some (FreightSearch.cols r1) →
       freight_searches db !! FreightSearch.id r2 = Some (FreightSearch.cols r2) →
       r1 = r2 ∨ strictly_desc r1 r2 ∨ strictly_desc r2 r1).
Proof.
  assert (∀ response limit offset before_ts before_id rows response',
     find_matches db freight_id response limit offset before_ts before_id
       = Ok (rows, response') →
     StronglySorted strictly_desc rows) as Hsorted.
  { intros response limit offset before_ts before_id rows response'
      (f & _ & ->)%find_matches_Ok_inv.
    apply page_of_strictly_desc. }
  split; [exact Hsorted|]. split; [|apply strictly_desc_total_table].
  intros limit offset before_ts before_id rows headers H.
  assert (StronglySorted strictly_desc rows) as Hrows.
  { destruct (GET_find_matches_handler _ _ _ _ _ _ _ _ H) as [response' H'].
    by apply Hsorted in H'. }
  split; [done|].
  intros c limit' offset' rows' headers' Hc H' r Hr Hr'.
  destruct (GET_find_matches_cursor _ _ _ _ _ _ _ _ _ H Hc) as (r0 & Hlast & -> & _).
  pose proof (GET_find_matches_cursor_pred _ _ _ _ _ _ _ _ H' r Hr') as Hbefore.
  apply (strictly_desc_before r0 r) in Hbefore.
  destruct (StronglySorted_last _ _ _ _ Hrows Hlast Hr) as [->|Hafter].
  - by apply strictly_desc_irrefl in Hbefore.
  - apply (strictly_desc_irrefl r). by etrans.
Qed.

Lemma find_matches_ordered_no_overlap_witness :
  ∃ rows headers rows' headers',
    GET_find_matches Sample.lanes 1 (Some 2) None None None = Ok (rows, headers)
    ∧ GET_find_matches Sample.lanes 1 (Some 2) None (Some 3000) (Some 4) = Ok (rows', headers')
    ∧ rows.*1 = [5; 4] ∧ rows'.*1 = [3; 2]
    ∧ StronglySorted strictly_desc rows
    ∧ ∀ r, r ∈ rows → r ∉ rows'.
Proof.
  eexists _, _, _, _. split; [vm_compute; reflexivity|]. split; [vm_compute; reflexivity|].
  split; [reflexivity|]. split; [reflexivity|].
  edestruct (proj1 (proj2 (find_matches_ordered_no_overlap Sample.lanes 1))
               (Some 2) None None None) as [Hsorted Hdisjoint]; [vm_compute; reflexivity|].
  split; [exact Hsorted|].
  eapply (Hdisjoint (3000, 4) (Some 2) None); [reflexivity|]. vm_compute. reflexivity.
Defined.





(** C8 (the code departs from it).  A search whose only constraint is
    [min_price] equal to the price of the freight, or [max_price] equal to
    it, ought to match.  Both price conditions do hold at the boundary, but
    the route conditions reject the NULL codes of such a search, so neither
    search is in the match set of freight 1. *)
Theorem boundary_price_search_not_matched :
  let Smin := Sample.min_at_price 1000 in
  let Smax := Sample.max_at_price 2000 in
  let db := Sample.store [(1, Smin); (2, Smax)] in
  FreightSearch.min_price Smin = Some (Freight.price Sample.freight1)
  ∧ FreightSearch.max_price Smax = Some (Freight.price Sample.freight1)
  ∧ SQL.holds (SQL.where_ (price_conds Sample.freight1 Smin))
  ∧ SQL.holds (SQL.where_ (price_conds Sample.freight1 Smax))
  ∧ ¬ Matches Sample.freight1 Smin
  ∧ ¬ Matches Sample.freight1 Smax
  ∧ GET_find_matches db 1 None None None None = Ok ([], ∅).
Proof.
  cbv zeta. split; [reflexivity|]. split; [reflexivity|].
  split; [apply price_band_inclusive; [by right|by left]|].
  split; [apply price_band_inclusive; [by left|by right]|].
  split; [by apply null_route_never_matches; left|].
  split; [by apply null_route_never_matches; left|].
  vm_compute. reflexivity.
Qed.

(** C9.  The keyset condition is added only when both halves of the cursor
    are present: a call with [before_ts] alone, or with [before_id] alone,
    answers exactly as the call with no cursor. *)
Theorem find_matches_half_cursor_ignored db freight_id before_ts before_id :
  (∀ response limit offset,
     find_matches db freight_id response limit offset (Some before_ts) None
       = find_matches db freight_id response limit offset None None
     ∧ find_matches db freight_id response limit offset None (Some before_id)
       = find_matches db freight_id response limit offset None None)
  ∧ (∀ limit offset,
       GET_find_matches db freight_id limit offset (Some before_ts) None
         = GET_find_matches db freight_id limit offset None None
       ∧ GET_find_matches db freight_id limit offset None (Some before_id)
         = GET_find_matches db freight_id limit offset None None).
Proof.
  assert (∀ response limit offset,
     find_matches db freight_id response limit offset (Some before_ts) None
       = find_matches db freight_id response limit offset None None
     ∧ find_matches db freight_id response limit offset None (Some before_id)
       = find_matches db freight_id response limit offset None None) as Hhandler.
  { intros. split; reflexivity. }
  split; [exact Hhandler|].
  intros limit offset. unfold GET_find_matches.
  destruct (Hhandler (Some ∅) (default 200 limit) (default 0 offset)) as [-> ->]. done.
Qed.

(** C10.  With a complete cursor and an offset the handler applies both:
    the rows of the match set strictly before the cursor are taken in
    result order, the first [offset] of them are skipped, and the next
    [limit] are the page.  The cursor does not make the offset void. *)
Theorem find_matches_cursor_then_offset db freight_id f before_ts before_id :
  freights db !! freight_id = Some f →
  (∀ response limit offset rows response',
     find_matches db freight_id response limit offset (Some before_ts) (Some before_id)
       = Ok (rows, response') →
     rows = take (Z.to_nat limit)
              (drop (Z.to_nat offset)
                 (filter (before_cursor (before_ts, before_id)) (match_set db f))))
  ∧ (∀ limit offset rows headers,
       GET_find_matches db freight_id limit offset (Some before_ts) (Some before_id)
         = Ok (rows, headers) →
       rows = take (Z.to_nat (default 200 limit))
                (drop (Z.to_nat (default 0 offset))
                   (filter (before_cursor (before_ts, before_id)) (match_set db f)))).
Proof.
  intros Hf.
  assert (∀ response limit offset rows response',
     find_matches db freight_id response limit offset (Some before_ts) (Some before_id)
       = Ok (rows, response') →
     rows = take (Z.to_nat limit)
              (drop (Z.to_nat offset)
                 (filter (before_cursor (before_ts, before_id)) (match_set db f))))
    as Hhandler.
  { intros response limit offset rows response' (f' & Hf' & ->)%find_matches_Ok_inv.
    rewrite Hf in Hf'. by injection Hf' as <-. }
  split; [exact Hhandler|].
  intros limit offset rows headers [response' H]%GET_find_matches_handler.
  by apply Hhandler in H.
Qed.

Lemma find_matches_cursor_then_offset_witness :
  (match_set Sample.lanes Sample.freight1).*1 = [5; 4; 3; 2; 1]
  ∧ ∃ rows headers,
      GET_find_matches Sample.lanes 1 (Some 2) (Some 1) (Some 3000) (Some 4)
        = Ok (rows, headers)
      ∧ rows.*1 = [2; 1]
      ∧ rows = take 2 (drop 1 (filter (before_cursor (3000, 4))
                                  (match_set Sample.lanes Sample.freight1))).
Proof.
  split; [vm_compute; reflexivity|].
  eexists _, _. split; [vm_compute; reflexivity|]. split; [reflexivity|].
  eapply (proj2 (find_matches_cursor_then_offset Sample.lanes 1 Sample.freight1 3000 4
                   ltac:(reflexivity)) (Some 2) (Some 1)).
  vm_compute. reflexivity.
Defined.

(** * Further properties *)

(** ** The matching predicate, in full *)

(** X1.  A search matches a freight exactly when it names both route codes
    of the freight and each of its six bounds is either absent or on the
    right side of the value of the freight, the value included: a lower
    bound is at most the value, an upper bound at least the value.  A route
    code left null is not a wildcard. *)
Theorem Matches_iff f s :
  Matches f s
  ↔ FreightSearch.pickup_code s = Some (Freight.pickup_code f)
    ∧ FreightSearch.delivery_code s = Some (Freight.delivery_code f)
    ∧ (FreightSearch.min_price s = None
       ∨ ∃ lo, FreightSearch.min_price s = Some lo ∧ float8_le lo (Freight.price f) = true)
    ∧ (FreightSearch.max_price s = None
       ∨ ∃ hi, FreightSearch.max_price s = Some hi ∧ float8_ge hi (Freight.price f) = true)
    ∧ (FreightSearch.pickup_date_from s = None
       ∨ ∃ d, FreightSearch.pickup_date_from s = Some d ∧ d ≤ Freight.pickup_date f)
    ∧ (FreightSearch.pickup_date_to s = None
       ∨ ∃ d, FreightSearch.pickup_date_to s = Some d ∧ Freight.pickup_date f ≤ d)
    ∧ (FreightSearch.delivery_date_from s = None
       ∨ ∃ d, FreightSearch.delivery_date_from s = Some d ∧ d ≤ Freight.delivery_date f)
    ∧ (FreightSearch.delivery_date_to s = None
       ∨ ∃ d, FreightSearch.delivery_date_to s = Some d ∧ Freight.delivery_date f ≤ d).
Proof.
  rewrite Matches_conds, holds_route_conds, holds_price_conds, holds_pickup_conds,
    holds_delivery_conds.
  tauto.
Qed.

(** ** Pages against the table *)

Lemma page_of_all db f limit :
  (length (match_set db f) < Z.to_nat limit)%nat →
  page_of db f limit 0 None None = match_set db f.
Proof.
  intros Hlen. unfold page_of, limit_offset. change (Z.to_nat 0) with 0%nat.
  rewrite drop_0, filter_all by (apply Forall_forall; done).
  apply take_ge. lia.
Qed.

Lemma cursor_pred_partial before_ts before_id r :
  before_ts = None ∨ before_id = None → cursor_pred before_ts before_id r.
Proof. intros [-> | ->]; [|destruct before_ts]; done. Qed.

(** X2.  A page is sound: its rows are rows of the table, each under its
    own id and none twice, and each matches the freight of the call.  The
    first page is complete when it is not full: called without a complete
    cursor and without offset, a page of fewer than [limit] rows holds
    every stored search that matches. *)
Theorem find_matches_sound_complete db freight_id limit offset before_ts before_id
    rows headers :
  GET_find_matches db freight_id limit offset before_ts before_id = Ok (rows, headers) →
  ∃ f, freights db !! freight_id = Some f
    ∧ NoDup rows.*1
    ∧ (∀ r, r ∈ rows →
         r ∈ list_freight_searches db
         ∧ freight_searches db !! FreightSearch.id r = Some (FreightSearch.cols r)
         ∧ Matches f (FreightSearch.cols r))
    ∧ (before_ts = None ∨ before_id = None →
       default 0 offset = 0 →
       Z.of_nat (length rows) < default 200 limit →
       ∀ r, freight_searches db !! FreightSearch.id r = Some (FreightSearch.cols r) →
            Matches f (FreightSearch.cols r) → r ∈ rows).
Proof.
  intros H. destruct (GET_find_matches_Ok_inv _ _ _ _ _ _ _ _ H) as (f & Hf & HL & HO).
  rewrite (GET_find_matches_found _ _ f) in H by done. cbv zeta in H.
  injection H as <- _. exists f. split; [done|]. split; [|split].
  - unfold page_of, limit_offset.
    eapply sublist_NoDup; [apply (NoDup_match_set db f)|].
    apply fmap_sublist. etrans; [apply sublist_take|].
    etrans; [apply sublist_drop|]. apply sublist_filter.
  - intros r [_ Hr%elem_of_match_set]%elem_of_page_of. destruct Hr as [Hm Hr].
    split; [|done]. unfold list_freight_searches. destruct r. by apply elem_of_map_to_list.
  - intros Hcursor Hoff Hlen r Hr Hm. rewrite Hoff in Hlen |- *.
    assert (page_of db f (default 200 limit) 0 before_ts before_id = match_set db f) as Hall.
    { unfold page_of, limit_offset in Hlen |- *. change (Z.to_nat 0) with 0%nat in *.
      rewrite drop_0 in Hlen |- *.
      rewrite filter_all in Hlen |- *
        by (apply Forall_forall; intros; by apply cursor_pred_partial).
      apply take_ge. rewrite length_take in Hlen. lia. }
    rewrite Hall. by apply elem_of_match_set.
Qed.

Lemma find_matches_sound_complete_witness :
  ∃ rows headers f,
    GET_find_matches Sample.lanes 1 None None None None = Ok (rows, headers)
    ∧ rows.*1 = [5; 4; 3; 2; 1]
    ∧ freights Sample.lanes !! 1 = Some f
    ∧ ∀ r, r ∈ rows → Matches f (FreightSearch.cols r).
Proof.
  eexists _, _.
  edestruct (find_matches_sound_complete Sample.lanes 1 None None None None)
    as (f & Hf & _ & Hsound & _); [vm_compute; reflexivity|].
  exists f. split; [vm_compute; reflexivity|]. split; [reflexivity|]. split; [exact Hf|].
  intros r Hr. by apply Hsound.
Defined.

(** ** The bounds of the query parameters *)

(** X5.  The endpoint rejects a request exactly when [limit] is outside
    1..1000 or [offset] is negative, absent parameters counting as 200 and
    0; the error names the offending parameters and no other; and the
    rejection does not depend on the store, so it comes before the lookup
    of the freight. *)
Theorem find_matches_query_bounds db freight_id limit offset before_ts before_id :
  (InvalidArgument (GET_find_matches db freight_id limit offset before_ts before_id)
   ↔ ¬ 1 ≤ default 200 limit ≤ 1000 ∨ default 0 offset < 0)
  ∧ (∀ errors,
       GET_find_matches db freight_id limit offset before_ts before_id
         = Raise (RequestValidationError errors) →
       ("limit" ∈ errors ↔ ¬ 1 ≤ default 200 limit ≤ 1000)
       ∧ ("offset" ∈ errors ↔ default 0 offset < 0)
       ∧ ∀ db' freight_id',
           GET_find_matches db' freight_id' limit offset before_ts before_id
           = Raise (RequestValidationError errors)).
Proof.
  assert (∀ L O errors, query_errors L O = errors →
            ("limit" ∈ errors ↔ ¬ 1 ≤ L ≤ 1000) ∧ ("offset" ∈ errors ↔ O < 0)) as Hnames.
  { intros L O errors <-. unfold query_errors.
    do 2 case_bool_decide; simpl; split; split; try lia; try done.
    all: try (intros ?%elem_of_nil; done); try (intros; by left).
    all: try (intros [?|?%elem_of_nil]%elem_of_cons; done).
    all: try (intros [?|[?|?%elem_of_nil]%elem_of_cons]%elem_of_cons; done).
    all: try (intros; right; by left). }
  destruct (decide (1 ≤ default 200 limit ≤ 1000 ∧ 0 ≤ default 0 offset)) as [[HL HO]|Hbad].
  - split.
    + split; [|lia]. intros (errors & _ & H).
      destruct (freights db !! freight_id) as [f|] eqn:Hf.
      * rewrite (GET_find_matches_found _ _ f) in H by done. discriminate.
      * rewrite GET_find_matches_not_found in H by done. discriminate.
    + intros errors H. destruct (freights db !! freight_id) as [f|] eqn:Hf.
      * rewrite (GET_find_matches_found _ _ f) in H by done. discriminate.
      * rewrite GET_find_matches_not_found in H by done. discriminate.
  - split.
    + split; [lia|]. intros _. rewrite GET_find_matches_invalid by done.
      eexists. split; [|reflexivity]. by rewrite query_errors_nil.
    + intros errors H. rewrite GET_find_matches_invalid in H by done.
      injection H as H. destruct (Hnames _ _ _ H) as [Hl Ho].
      split; [done|]. split; [done|]. intros db' freight_id'.
      rewrite GET_find_matches_invalid by done. by rewrite H.
Qed.

Lemma find_matches_query_bounds_witness :
  GET_find_matches Sample.lanes 7 (Some 0) (Some (-1)) None None
    = Raise (RequestValidationError ["limit"; "offset"])
  ∧ GET_find_matches Sample.lanes 1 (Some 0) (Some (-1)) None None
    = Raise (RequestValidationError ["limit"; "offset"]).
Proof.
  split; [vm_compute; reflexivity|].
  apply (proj2 (find_matches_query_bounds Sample.lanes 7 (Some 0) (Some (-1)) None None)
           ["limit"; "offset"] ltac:(vm_compute; reflexivity)).
Defined.

(** X12.  The handler itself does not guard the empty page: called with a
    response object and [limit = 0] for an existing freight it finds the
    empty page "full" and raises [IndexError] on [rows[-1]].  The endpoint
    never raises it, since it admits no limit below 1. *)
Theorem find_matches_limit_zero db freight_id :
  (∀ f headers offset before_ts before_id,
     freights db !! freight_id = Some f →
     find_matches db freight_id (Some headers) 0 offset before_ts before_id
     = Raise IndexError)
  ∧ (∀ limit offset before_ts before_id,
       GET_find_matches db freight_id limit offset before_ts before_id ≠ Raise IndexError).
Proof.
  split.
  - intros f headers offset before_ts before_id Hf.
    rewrite (find_matches_found _ _ f) by done. cbv zeta.
    unfold page_of, limit_offset. change (Z.to_nat 0) with 0%nat. by rewrite take_0.
  - intros limit offset before_ts before_id H.
    destruct (decide (1 ≤ default 200 limit ≤ 1000 ∧ 0 ≤ default 0 offset)) as [[HL HO]|Hbad].
    + destruct (freights db !! freight_id) as [f|] eqn:Hf.
      * rewrite (GET_find_matches_found _ _ f) in H by done. discriminate.
      * rewrite GET_find_matches_not_found in H by done. discriminate.
    + rewrite GET_find_matches_invalid in H by done. discriminate.
Qed.

Lemma find_matches_limit_zero_witness :
  find_matches Sample.lanes 1 (Some ∅) 0 0 None None = Raise IndexError
  ∧ GET_find_matches Sample.lanes 1 (Some 0) None None None
    = Raise (RequestValidationError ["limit"]).
Proof.
  split; [|vm_compute; reflexivity].
  by eapply (proj1 (find_matches_limit_zero Sample.lanes 1)).
Defined.

(** ** Offsets and cursors on a fixed store *)

Lemma page_of_tile db f L1 L2 O before_ts before_id :
  0 ≤ L1 → 0 ≤ L2 → 0 ≤ O →
  page_of db f (L1 + L2) O before_ts before_id
  = page_of db f L1 O before_ts before_id ++ page_of db f L2 (O + L1) before_ts before_id.
Proof.
  intros HL1 HL2 HO. unfold page_of, limit_offset.
  rewrite !Z2Nat.inj_add by done. rewrite <-drop_drop. apply eq_sym, take_take_drop.
Qed.

(** X3.  Pages taken by offset tile the result: the page of [L1] rows at
    offset [O] followed by the page of [L2] rows at offset [O + L1] is the
    page of [L1 + L2] rows at offset [O], for one freight, one cursor and
    one store (as long as [L1 + L2] is a limit the endpoint admits). *)
Theorem find_matches_offset_pages_tile db freight_id L1 L2 O before_ts before_id
    rows1 headers1 rows2 headers2 :
  GET_find_matches db freight_id (Some L1) (Some O) before_ts before_id
    = Ok (rows1, headers1) →
  GET_find_matches db freight_id (Some L2) (Some (O + L1)) before_ts before_id
    = Ok (rows2, headers2) →
  L1 + L2 ≤ 1000 →
  ∃ headers,
    GET_find_matches db freight_id (Some (L1 + L2)) (Some O) before_ts before_id
    = Ok (rows1 ++ rows2, headers).
Proof.
  intros H1 H2 Hsum.
  destruct (GET_find_matches_Ok_inv _ _ _ _ _ _ _ _ H1) as (f & Hf & HL1 & HO).
  destruct (GET_find_matches_Ok_inv _ _ _ _ _ _ _ _ H2) as (f' & Hf' & HL2 & _).
  simpl in HL1, HL2, HO.
  rewrite (GET_find_matches_found _ _ f) in H1 by done.
  rewrite (GET_find_matches_found _ _ f) in H2 by (simpl; (done || lia)).
  cbv zeta in H1, H2. simpl in H1, H2. injection H1 as <- _. injection H2 as <- _.
  rewrite (GET_find_matches_found _ _ f) by (simpl; (done || lia)). cbv zeta. simpl.
  rewrite page_of_tile by lia. eauto.
Qed.

Lemma find_matches_offset_pages_tile_witness :
  ∃ rows1 headers1 rows2 headers2 headers,
    GET_find_matches Sample.lanes 1 (Some 2) (Some 1) None None = Ok (rows1, headers1)
    ∧ GET_find_matches Sample.lanes 1 (Some 1) (Some 3) None None = Ok (rows2, headers2)
    ∧ rows1.*1 = [4; 3] ∧ rows2.*1 = [2]
    ∧ GET_find_matches Sample.lanes 1 (Some 3) (Some 1) None None
      = Ok (rows1 ++ rows2, headers).
Proof.
  eexists _, _, _, _.
  edestruct (find_matches_offset_pages_tile Sample.lanes 1 2 1 1 None None)
    as [headers H]; [vm_compute; reflexivity|vm_compute; reflexivity|lia|].
  exists headers. split; [vm_compute; reflexivity|]. split; [vm_compute; reflexivity|].
  split; [reflexivity|]. split; [reflexivity|]. exact H.
Defined.

Lemma before_cursor_trans c r x :
  before_cursor c r → before_cursor (cursor_of r) x → before_cursor c x.
Proof. unfold before_cursor, cursor_of. simpl. lia. Qed.

Lemma filtered_match_set_strictly_desc db f before_ts before_id :
  StronglySorted strictly_desc (filter (cursor_pred before_ts before_id) (match_set db f)).
Proof. apply StronglySorted_filter, match_set_strictly_desc. Qed.

(** The rows after the cursor of the last row of a full page are the rows
    that the page and its offset leave. *)
Lemma filter_after_page db f L O before_ts before_id r :
  0 ≤ L → 0 ≤ O →
  last (page_of db f L O before_ts before_id) = Some r →
  Z.of_nat (length (page_of db f L O before_ts before_id)) = L →
  filter (before_cursor (cursor_of r)) (match_set db f)
  = drop (Z.to_nat (O + L)) (filter (cursor_pred before_ts before_id) (match_set db f)).
Proof.
  intros HL HO Hlast Hlen.
  set (l := filter (cursor_pred before_ts before_id) (match_set db f)).
  assert (r ∈ page_of db f L O before_ts before_id) as Hr.
  { apply last_Some in Hlast as [init ->]. apply elem_of_app. right. by left. }
  apply elem_of_page_of in Hr as [Hcp _].
  assert (filter (before_cursor (cursor_of r)) (match_set db f)
          = filter (before_cursor (cursor_of r)) l) as ->.
  { unfold l. rewrite list_filter_filter_l; [done|]. intros x Hx.
    unfold cursor_pred in *. destruct before_ts as [ts|], before_id as [n|]; try done.
    by eapply before_cursor_trans. }
  unfold page_of, limit_offset in Hlast, Hlen. fold l in Hlast, Hlen.
  apply last_Some in Hlast as [init Hinit].
  assert (l = (take (Z.to_nat O) l ++ init) ++ r :: drop (Z.to_nat (O + L)) l) as Hsplit.
  { rewrite <-(take_drop (Z.to_nat O) l) at 1. rewrite <-app_assoc. f_equal.
    rewrite <-(take_drop (Z.to_nat L) (drop (Z.to_nat O) l)), Hinit, <-app_assoc.
    rewrite drop_drop, <-Z2Nat.inj_add by done. done. }
  pose proof (filtered_match_set_strictly_desc db f before_ts before_id) as Hs.
  fold l in Hs. rewrite Hsplit in Hs. rewrite Hsplit at 1.
  by apply filter_before_cursor_suffix.
Qed.

(** X4.  On a fixed store a cursor is an offset: when a page announces a
    cursor, any call with that cursor (and no offset) answers exactly as
    the call that keeps the cursor of the first call, if it had one, and
    skips the offset of the first call plus its limit. *)
Theorem find_matches_cursor_is_offset db freight_id limit offset before_ts before_id
    rows headers c :
  GET_find_matches db freight_id limit offset before_ts before_id = Ok (rows, headers) →
  next_cursor headers = Some c →
  ∀ limit',
    GET_find_matches db freight_id limit' None (Some c.1) (Some c.2)
    = GET_find_matches db freight_id limit'
        (Some (default 0 offset + default 200 limit)) before_ts before_id.
Proof.
  intros H Hc limit'.
  destruct (GET_find_matches_Ok_inv _ _ _ _ _ _ _ _ H) as (f & Hf & HL & HO).
  destruct (GET_find_matches_cursor _ _ _ _ _ _ _ _ _ H Hc) as (r & Hlast & -> & Hlen).
  rewrite (GET_find_matches_found _ _ f) in H by done. cbv zeta in H.
  injection H as <- _.
  destruct (decide (1 ≤ default 200 limit' ≤ 1000)) as [HL'|Hbad].
  - rewrite !(GET_find_matches_found _ _ f) by (simpl; (done || lia)). cbv zeta.
    assert (page_of db f (default 200 limit') (default 0 None)
              (Some (cursor_of r).1) (Some (cursor_of r).2)
            = page_of db f (default 200 limit')
                (default 0 (Some (default 0 offset + default 200 limit)))
                before_ts before_id) as ->; [|done].
    unfold page_of, limit_offset. simpl.
    change (Z.to_nat 0) with 0%nat. rewrite drop_0. f_equal.
    apply filter_after_page; (done || lia).
  - rewrite !GET_find_matches_invalid by (simpl; lia). simpl.
    unfold query_errors. rewrite !(bool_decide_eq_true_2 (0 ≤ _)) by lia. done.
Qed.

Lemma find_matches_cursor_is_offset_witness :
  ∃ rows headers,
    GET_find_matches Sample.lanes 1 (Some 2) (Some 1) None None = Ok (rows, headers)
    ∧ rows.*1 = [4; 3]
    ∧ next_cursor headers = Some (2000, 3)
    ∧ GET_find_matches Sample.lanes 1 (Some 2) None (Some 2000) (Some 3)
      = GET_find_matches Sample.lanes 1 (Some 2) (Some 3) None None.
Proof.
  eexists _, _. split; [vm_compute; reflexivity|]. split; [reflexivity|].
  split; [reflexivity|].
  eapply (find_matches_cursor_is_offset Sample.lanes 1 (Some 2) (Some 1) None None
            _ _ (2000, 3)); [vm_compute; reflexivity|reflexivity].
Defined.

(** ** Adding a search *)

Lemma next_id_above {A} (table : gmap Z A) k x : table !! k = Some x → k < next_id table.
Proof.
  intros Hx. apply elem_of_map_to_list in Hx. apply (list_elem_of_fmap_2 fst) in Hx.
  simpl in Hx. unfold next_id. revert Hx. generalize ((map_to_list table).*1). intros ks.
  induction ks as [|k' ks IH]; intros Hk; [by apply elem_of_nil in Hk|].
  simpl. apply elem_of_cons in Hk as [->|Hk]; [lia|]. specialize (IH Hk). lia.
Qed.

Lemma POST_freight_searches_Ok_inv db now payload new db' :
  POST_freight_searches db now payload = (Ok new, db') →
  ¬ invariant_violated payload
  ∧ is_Some (users db !! FreightSearchCreate.user_id payload)
  ∧ new = (next_id (freight_searches db), search_obj_of payload now)
  ∧ db' = with_search db new.1 new.2.
Proof.
  intros H. unfold POST_freight_searches in H.
  destruct (model_validate payload) as [search|e] eqn:Hm; [|discriminate].
  assert (¬ invariant_violated payload) as Hv.
  { intros (errors & _ & Hr)%model_validate_violated. congruence. }
  apply model_validate_Ok in Hm as ->. unfold create_freight_search in H.
  destruct (users db !! FreightSearchCreate.user_id payload) as [user|]; [|discriminate].
  injection H as <- <-. split; [done|]. split; [by eexists|]. by split.
Qed.

Lemma select_where_insert table k v conds :
  table !! k = None →
  select_where (<[k := v]> table) conds
  ≡ₚ (if decide (SQL.holds (SQL.where_ (conds (k, v)))) then [(k, v)] else [])
     ++ select_where table conds.
Proof.
  intros Hk. unfold select_where. rewrite map_to_list_insert by done.
  rewrite filter_cons. by destruct (decide _).
Qed.

Lemma match_set_with_search db k v f :
  freight_searches db !! k = None →
  match_set (with_search db k v) f
  ≡ₚ (if decide (Matches f v) then [(k, v)] else []) ++ match_set db f.
Proof.
  intros Hk. unfold match_set, order_by_desc. rewrite !merge_sort_Permutation. simpl.
  by rewrite select_where_insert.
Qed.

Lemma elem_of_match_set_with_search db k v f r :
  freight_searches db !! k = None →
  r ∈ match_set db f → freight_searches (with_search db k v) !! r.1 = Some r.2.
Proof.
  intros Hk [_ Hr]%elem_of_match_set. simpl. rewrite lookup_insert_ne; [done|].
  intros Heq. rewrite <-Heq in Hr. congruence.
Qed.

(** A condition that the new row fails selects the same rows, in the same
    order, before and after the insertion. *)
Lemma filter_match_set_with_search db k v f (P : FreightSearch.row → Prop)
    `{!∀ r, Decision (P r)} :
  freight_searches db !! k = None → ¬ P (k, v) →
  filter P (match_set (with_search db k v) f) = filter P (match_set db f).
Proof.
  intros Hk HP. apply (StronglySorted_unique_strong desc).
  - intros r1 r2 [_ [_ H1]%elem_of_match_set]%list_elem_of_filter
      [_ H2]%list_elem_of_filter.
    apply (desc_antisym_table (freight_searches (with_search db k v))); [done|].
    by eapply elem_of_match_set_with_search.
  - apply StronglySorted_filter, StronglySorted_order_by_desc.
  - apply StronglySorted_filter, StronglySorted_order_by_desc.
  - rewrite match_set_with_search by done. rewrite filter_app.
    destruct (decide (Matches f v)); [|done]. by rewrite filter_cons_False.
Qed.

(** A row that the order places before every stored row comes first. *)
Lemma match_set_with_search_first db k v f :
  freight_searches db !! k = None →
  map_Forall (λ k' s, desc (k, v) (k', s)) (freight_searches db) →
  Matches f v →
  match_set (with_search db k v) f = (k, v) :: match_set db f.
Proof.
  intros Hk Hfirst Hm. apply (StronglySorted_unique_strong desc).
  - intros r1 r2 [_ H1]%elem_of_match_set Hr2.
    apply (desc_antisym_table (freight_searches (with_search db k v))); [done|].
    apply elem_of_cons in Hr2 as [->|Hr2]; [simpl; by rewrite lookup_insert_eq|].
    by eapply elem_of_match_set_with_search.
  - apply StronglySorted_order_by_desc.
  - constructor; [apply StronglySorted_order_by_desc|].
    apply Forall_forall. intros [k' s] [_ Hr]%elem_of_match_set. by apply Hfirst.
  - rewrite match_set_with_search by done. by rewrite decide_True.
Qed.

Lemma match_set_with_search_unmatched db k v f :
  freight_searches db !! k = None → ¬ Matches f v →
  match_set (with_search db k v) f = match_set db f.
Proof.
  intros Hk Hm.
  rewrite <-(filter_all (λ _, True) (match_set (with_search db k v) f))
    by (by apply Forall_forall).
  rewrite <-(filter_all (λ _, True) (match_set db f)) by (by apply Forall_forall).
  apply (StronglySorted_unique_strong desc).
  - intros r1 r2 [_ [_ H1]%elem_of_match_set]%list_elem_of_filter
      [_ H2]%list_elem_of_filter.
    apply (desc_antisym_table (freight_searches (with_search db k v))); [done|].
    by eapply elem_of_match_set_with_search.
  - apply StronglySorted_filter, StronglySorted_order_by_desc.
  - apply StronglySorted_filter, StronglySorted_order_by_desc.
  - rewrite match_set_with_search by done. by rewrite decide_False.
Qed.

(** Two stores with the same freights and the same pages answer alike. *)
Lemma GET_find_matches_ext db db' freight_id limit offset before_ts before_id
    before_ts' before_id' offset' :
  freights db' = freights db →
  (0 ≤ default 0 offset' ↔ 0 ≤ default 0 offset) →
  (∀ f, freights db !! freight_id = Some f →
        page_of db' f (default 200 limit) (default 0 offset') before_ts' before_id'
        = page_of db f (default 200 limit) (default 0 offset) before_ts before_id) →
  GET_find_matches db' freight_id limit offset' before_ts' before_id'
  = GET_find_matches db freight_id limit offset before_ts before_id.
Proof.
  intros Hfreights Hoff Hpage.
  destruct (decide (1 ≤ default 200 limit ≤ 1000 ∧ 0 ≤ default 0 offset)) as [[HL HO]|Hbad].
  - destruct (freights db !! freight_id) as [f|] eqn:Hf.
    + rewrite (GET_find_matches_found db' _ f), (GET_find_matches_found db _ f);
        [|done|done|done|by rewrite Hfreights|done|tauto].
      cbv zeta. by rewrite (Hpage f).
    + rewrite !GET_find_matches_not_found; [done|done|done|done| |done|tauto].
      by rewrite Hfreights.
  - rewrite !GET_find_matches_invalid by tauto. unfold query_errors.
    destruct (decide (0 ≤ default 0 offset)).
    + rewrite !(bool_decide_eq_true_2 (0 ≤ _)) by tauto. done.
    + rewrite !(bool_decide_eq_false_2 (0 ≤ _)) by tauto. done.
Qed.

Lemma new_search_not_before_stored db now payload new db' r0 :
  POST_freight_searches db now payload = (Ok new, db') →
  clock_monotone db now →
  freight_searches db !! FreightSearch.id r0 = Some (FreightSearch.cols r0) →
  ¬ before_cursor (cursor_of r0) new ∧ desc new r0.
Proof.
  intros (_ & _ & -> & _)%POST_freight_searches_Ok_inv Hclock Hr0.
  pose proof (next_id_above _ _ _ Hr0) as Hid.
  specialize (Hclock _ _ Hr0). simpl in Hclock.
  unfold before_cursor, desc, cursor_of, FreightSearch.id, FreightSearch.cols in *.
  simpl. lia.
Qed.

(** X7.  A cursor stays good while searches are added: after a search is
    created at a time no earlier than the stored ones, every call with the
    cursor of a row that was already stored answers exactly as it did
    before, whatever freight, limit and offset it names. *)
Theorem cursor_stable_under_insert db now payload new db' r0 :
  POST_freight_searches db now payload = (Ok new, db') →
  clock_monotone db now →
  freight_searches db !! FreightSearch.id r0 = Some (FreightSearch.cols r0) →
  ∀ freight_id limit offset,
    GET_find_matches db' freight_id limit offset
      (Some (cursor_of r0).1) (Some (cursor_of r0).2)
    = GET_find_matches db freight_id limit offset
        (Some (cursor_of r0).1) (Some (cursor_of r0).2).
Proof.
  intros H Hclock Hr0 freight_id limit offset.
  destruct (new_search_not_before_stored _ _ _ _ _ _ H Hclock Hr0) as [Hnot _].
  apply POST_freight_searches_Ok_inv in H as (_ & _ & Hnew & ->).
  apply GET_find_matches_ext; [done|done|]. intros f _. unfold page_of. f_equal.
  apply filter_match_set_with_search.
  - rewrite Hnew. apply next_id_fresh.
  - simpl. by destruct new.
Qed.

Lemma cursor_stable_under_insert_witness :
  POST_freight_searches Sample.lanes 6000 Sample.lane_body
    = (Ok Fixture.posted, Fixture.lanes_after)
  ∧ GET_find_matches Fixture.lanes_after 1 (Some 2) None (Some 3000) (Some 4)
    = GET_find_matches Sample.lanes 1 (Some 2) None (Some 3000) (Some 4).
Proof.
  split; [vm_compute; reflexivity|].
  apply (cursor_stable_under_insert Sample.lanes 6000 Sample.lane_body
           Fixture.posted Fixture.lanes_after (4, Sample.lane 3000)
           ltac:(vm_compute; reflexivity)
           ltac:(apply (bool_decide_unpack _); vm_compute; exact I)
           ltac:(reflexivity) 1 (Some 2) None).
Defined.

Lemma match_set_after_POST db now payload new db' f :
  POST_freight_searches db now payload = (Ok new, db') →
  clock_monotone db now →
  match_set db' f
  = if decide (Matches f (FreightSearch.cols new)) then new :: match_set db f
    else match_set db f.
Proof.
  intros H Hclock.
  assert (map_Forall (λ k s, desc new (k, s)) (freight_searches db)) as Hfirst.
  { intros k s Hs. by apply (new_search_not_before_stored _ _ _ _ _ (k, s) H Hclock). }
  apply POST_freight_searches_Ok_inv in H as (_ & _ & Hnew & ->).
  assert (freight_searches db !! new.1 = None) as Hfresh
    by (rewrite Hnew; apply next_id_fresh).
  destruct new as [k v]. simpl in *. destruct (decide (Matches f v)).
  - by apply match_set_with_search_first.
  - by apply match_set_with_search_unmatched.
Qed.

(** X8.  A search just created, at a time no earlier than the stored ones,
    is the newest row: if it matches a freight it is the first row of the
    first page of that freight, in front of the rows that were there; if
    it does not, every call for that freight answers as before. *)
Theorem new_search_comes_first db now payload new db' freight_id f :
  POST_freight_searches db now payload = (Ok new, db') →
  clock_monotone db now →
  freights db !! freight_id = Some f →
  (Matches f (FreightSearch.cols new) →
     match_set db' f = new :: match_set db f
     ∧ ∀ limit rows headers,
         GET_find_matches db' freight_id limit None None None = Ok (rows, headers) →
         head rows = Some new)
  ∧ (¬ Matches f (FreightSearch.cols new) →
       ∀ limit offset before_ts before_id,
         GET_find_matches db' freight_id limit offset before_ts before_id
         = GET_find_matches db freight_id limit offset before_ts before_id).
Proof.
  intros H Hclock Hf. pose proof (match_set_after_POST _ _ _ _ _ f H Hclock) as Hset.
  apply POST_freight_searches_Ok_inv in H as (_ & _ & _ & Hdb').
  assert (freights db' = freights db) as Hfreights by (by rewrite Hdb').
  split; intros Hm.
  - rewrite decide_True in Hset by done. split; [done|].
    intros limit rows headers Hget.
    destruct (GET_find_matches_Ok_inv _ _ _ _ _ _ _ _ Hget) as (f' & Hf' & HL & HO).
    rewrite Hfreights, Hf in Hf'. injection Hf' as <-.
    rewrite (GET_find_matches_found _ _ f) in Hget by (by rewrite ?Hfreights).
    cbv zeta in Hget. injection Hget as <- _.
    unfold page_of, limit_offset. simpl. change (Z.to_nat 0) with 0%nat.
    rewrite drop_0, filter_all by (by apply Forall_forall). rewrite Hset.
    destruct (Z.to_nat (default 200 limit)) eqn:HLn; [lia|done].
  - rewrite decide_False in Hset by done. intros limit offset before_ts before_id.
    apply GET_find_matches_ext; [done|done|].
    intros f' Hf'. rewrite Hf in Hf'. injection Hf' as <-. unfold page_of. by rewrite Hset.
Qed.

Lemma new_search_comes_first_witness :
  ∃ rows headers,
    GET_find_matches Fixture.lanes_after 1 (Some 2) None None None = Ok (rows, headers)
    ∧ rows.*1 = [7; 5]
    ∧ head rows = Some Fixture.posted.
Proof.
  eexists _, _. split; [vm_compute; reflexivity|]. split; [reflexivity|].
  destruct (new_search_comes_first Sample.lanes 6000 Sample.lane_body
              Fixture.posted Fixture.lanes_after 1 Sample.freight1
              ltac:(vm_compute; reflexivity)
              ltac:(apply (bool_decide_unpack _); vm_compute; exact I)
              ltac:(reflexivity)) as [Hfirst _].
  eapply (proj2 (Hfirst ltac:(vm_compute; reflexivity)) (Some 2)).
  vm_compute. reflexivity.
Defined.

(** X9.  Paging by offset is not stable under insertion: once a matching
    search has been created, the page at offset [O + 1] is the page that
    offset [O] gave before, so a client that goes on to the next offset
    sees the last row of its previous page again. *)
Theorem offset_pages_shift_under_insert db now payload new db' freight_id f O :
  POST_freight_searches db now payload = (Ok new, db') →
  clock_monotone db now →
  freights db !! freight_id = Some f →
  Matches f (FreightSearch.cols new) →
  0 ≤ O →
  ∀ limit,
    GET_find_matches db' freight_id limit (Some (O + 1)) None None
    = GET_find_matches db freight_id limit (Some O) None None.
Proof.
  intros H Hclock Hf Hm HO limit.
  pose proof (match_set_after_POST _ _ _ _ _ f H Hclock) as Hset.
  rewrite decide_True in Hset by done.
  apply POST_freight_searches_Ok_inv in H as (_ & _ & _ & Hdb').
  apply GET_find_matches_ext; [by rewrite Hdb'|simpl; lia|].
  intros f' Hf'. rewrite Hf in Hf'. injection Hf' as <-.
  unfold page_of, limit_offset. simpl. rewrite Hset.
  rewrite !filter_all by (by apply Forall_forall).
  rewrite Z2Nat.inj_add by lia. change (Z.to_nat 1) with 1%nat.
  rewrite Nat.add_1_r. done.
Qed.

Lemma offset_pages_shift_under_insert_witness :
  ∃ rows headers,
    GET_find_matches Sample.lanes 1 (Some 2) (Some 0) None None = Ok (rows, headers)
    ∧ rows.*1 = [5; 4]
    ∧ GET_find_matches Fixture.lanes_after 1 (Some 2) (Some 1) None None
      = Ok (rows, headers).
Proof.
  eexists _, _. split; [vm_compute; reflexivity|]. split; [reflexivity|].
  etrans; [|vm_compute; reflexivity].
  exact (offset_pages_shift_under_insert Sample.lanes 6000 Sample.lane_body
           Fixture.posted Fixture.lanes_after 1 Sample.freight1 0
           ltac:(vm_compute; reflexivity)
           ltac:(apply (bool_decide_unpack _); vm_compute; exact I)
           ltac:(reflexivity) ltac:(vm_compute; reflexivity) ltac:(lia) (Some 2)).
Defined.

(** ** What a created search is *)

(** X10.  [POST /freight_searches/] succeeds exactly when the body respects
    the invariants and names a stored user.  The row it returns carries the
    fields of the body and the time of the store, under an id above every
    id in use; the store afterwards holds that row in addition, and nothing
    else has changed: the listing of the searches grows by this one row. *)
Theorem create_freight_search_created db now payload :
  ((∃ new db', POST_freight_searches db now payload = (Ok new, db'))
   ↔ ¬ invariant_violated payload
     ∧ is_Some (users db !! FreightSearchCreate.user_id payload))
  ∧ ∀ new db',
      POST_freight_searches db now payload = (Ok new, db') →
      FreightSearch.cols new = search_obj_of payload now
      ∧ FreightSearch.created_at (FreightSearch.cols new) = now
      ∧ (∀ k s, freight_searches db !! k = Some s → k < FreightSearch.id new)
      ∧ users db' = users db
      ∧ freights db' = freights db
      ∧ freight_searches db' !! FreightSearch.id new = Some (FreightSearch.cols new)
      ∧ (∀ k, k ≠ FreightSearch.id new →
              freight_searches db' !! k = freight_searches db !! k)
      ∧ list_freight_searches db' ≡ₚ new :: list_freight_searches db.
Proof.
  split.
  - split.
    + intros (new & db' & H). apply POST_freight_searches_Ok_inv in H. tauto.
    + intros [Hv [user Hu]].
      destruct (POST_freight_searches_created db now payload user Hv Hu) as (id & _ & H).
      eauto.
  - intros new db' (_ & _ & Hnew & ->)%POST_freight_searches_Ok_inv.
    split; [by rewrite Hnew|]. split; [by rewrite Hnew|].
    split; [intros k s Hs; rewrite Hnew; by eapply next_id_above|].
    split; [done|]. split; [done|]. simpl.
    split; [by rewrite lookup_insert_eq|].
    split; [intros k Hk; by rewrite lookup_insert_ne|].
    unfold list_freight_searches. simpl. destruct new as [k v]. simpl.
    apply map_to_list_insert. injection Hnew as -> _. apply next_id_fresh.
Qed.

Lemma create_freight_search_created_witness :
  POST_freight_searches Sample.lanes 6000 Sample.lane_body
    = (Ok Fixture.posted, Fixture.lanes_after)
  ∧ FreightSearch.id Fixture.posted = 7
  ∧ list_freight_searches Fixture.lanes_after
    ≡ₚ Fixture.posted :: list_freight_searches Sample.lanes.
Proof.
  split; [vm_compute; reflexivity|]. split; [reflexivity|].
  apply (proj2 (create_freight_search_created Sample.lanes 6000 Sample.lane_body)
           Fixture.posted Fixture.lanes_after ltac:(vm_compute; reflexivity)).
Defined.

(** ** The validators *)

Lemma price_bounds_error payload :
  (price_inverted payload
   ∧ error_of (_price_bounds (FreightSearchCreate.max_price payload)
                 (FreightSearchCreate.min_price payload))
     = ["max_price must be >= min_price"])
  ∨ (¬ price_inverted payload
     ∧ error_of (_price_bounds (FreightSearchCreate.max_price payload)
                   (FreightSearchCreate.min_price payload)) = []).
Proof.
  unfold price_inverted.
  destruct (FreightSearchCreate.max_price payload) as [hi|],
    (FreightSearchCreate.min_price payload) as [lo|]; simpl.
  2-4: right; split; [intros (? & ? & ? & ? & ?); congruence|done].
  destruct (py_float_lt hi lo) eqn:Hlt; [left|right]; (split; [|done]).
  - eauto.
  - intros (? & ? & [= <-] & [= <-] & ?). congruence.
Qed.

Lemma pickup_window_error payload :
  (pickup_inverted payload
   ∧ error_of (_pickup_window (FreightSearchCreate.pickup_date_to payload)
                 (FreightSearchCreate.pickup_date_from payload))
     = ["pickup_date_to must be >= pickup_date_from"])
  ∨ (¬ pickup_inverted payload
     ∧ error_of (_pickup_window (FreightSearchCreate.pickup_date_to payload)
                   (FreightSearchCreate.pickup_date_from payload)) = []).
Proof.
  unfold pickup_inverted.
  destruct (FreightSearchCreate.pickup_date_to payload) as [to|],
    (FreightSearchCreate.pickup_date_from payload) as [from|]; simpl.
  2-4: right; split; [intros (? & ? & ? & ? & ?); congruence|done].
  destruct (Z.ltb_spec to from); [left|right]; (split; [|done]).
  - eauto.
  - intros (? & ? & [= <-] & [= <-] & ?). lia.
Qed.

Lemma delivery_window_error payload :
  (delivery_inverted payload
   ∧ error_of (_delivery_window (FreightSearchCreate.delivery_date_to payload)
                 (FreightSearchCreate.delivery_date_from payload))
     = ["delivery_date_to must be >= delivery_date_from"])
  ∨ (¬ delivery_inverted payload
     ∧ error_of (_delivery_window (FreightSearchCreate.delivery_date_to payload)
                   (FreightSearchCreate.delivery_date_from payload)) = []).
Proof.
  unfold delivery_inverted.
  destruct (FreightSearchCreate.delivery_date_to payload) as [to|],
    (FreightSearchCreate.delivery_date_from payload) as [from|]; simpl.
  2-4: right; split; [intros (? & ? & ? & ? & ?); congruence|done].
  destruct (Z.ltb_spec to from); [left|right]; (split; [|done]).
  - eauto.
  - intros (? & ? & [= <-] & [= <-] & ?). lia.
Qed.

(** X11.  Validation of a body accepts it, unchanged, exactly when no
    range is inverted; otherwise it reports one error for each inverted
    range and no other: the message of the price bounds exactly when
    [max_price < min_price], that of the pickup window exactly when
    [pickup_date_to < pickup_date_from], and likewise for the delivery
    window, both fields being present.  Equal bounds are accepted. *)
Theorem model_validate_reports payload :
  (model_validate payload = Ok payload ↔ ¬ invariant_violated payload)
  ∧ (∀ search, model_validate payload = Ok search → search = payload)
  ∧ (∀ e, model_validate payload = Raise e →
       ∃ errors,
         e = RequestValidationError errors
         ∧ ("max_price must be >= min_price" ∈ errors ↔ price_inverted payload)
         ∧ ("pickup_date_to must be >= pickup_date_from" ∈ errors
            ↔ pickup_inverted payload)
         ∧ ("delivery_date_to must be >= delivery_date_from" ∈ errors
            ↔ delivery_inverted payload)
         ∧ ∀ msg, msg ∈ errors →
             msg = "max_price must be >= min_price"
             ∨ msg = "pickup_date_to must be >= pickup_date_from"
             ∨ msg = "delivery_date_to must be >= delivery_date_from").
Proof.
  split; [|split].
  - split.
    + intros H (errors & _ & Hr)%model_validate_violated. congruence.
    + apply model_validate_respected.
  - apply model_validate_Ok.
  - intros e. unfold model_validate.
    destruct (price_bounds_error payload) as [[Hp ->]|[Hp ->]],
      (pickup_window_error payload) as [[Hk ->]|[Hk ->]],
      (delivery_window_error payload) as [[Hd ->]|[Hd ->]]; simpl;
      intros [= <-] || discriminate.
    all: eexists; split; [reflexivity|].
    all: repeat split; intros *; rewrite ?elem_of_cons, ?elem_of_nil;
      intuition (discriminate || congruence).
Qed.

Lemma model_validate_reports_witness :
  model_validate (Sample.priced_body 1 200 200) = Ok (Sample.priced_body 1 200 200)
  ∧ model_validate (Sample.priced_body 1 350 200)
    = Raise (RequestValidationError ["max_price must be >= min_price"])
  ∧ price_inverted (Sample.priced_body 1 350 200).
Proof.
  split; [vm_compute; reflexivity|]. split; [vm_compute; reflexivity|].
  destruct (proj2 (proj2 (model_validate_reports (Sample.priced_body 1 350 200)))
              (RequestValidationError ["max_price must be >= min_price"])
              ltac:(vm_compute; reflexivity)) as (errors & [= <-] & Hprice & _).
  apply Hprice. by left.
Defined.

(** ** Invariants of the store *)

Lemma ranges_ordered_search_obj payload now :
  ¬ invariant_violated payload → ranges_ordered (search_obj_of payload now).
Proof.
  intros Hv. unfold ranges_ordered. simpl. split; [|split].
  - intros lo hi Hlo Hhi. destruct (py_float_lt hi lo) eqn:Hlt; [|done].
    exfalso. apply Hv. left. by exists lo, hi.
  - intros from to Hfrom Hto. destruct (decide (from ≤ to)); [done|].
    exfalso. apply Hv. right. left. exists from, to. split; [done|]. split; [done|]. lia.
  - intros from to Hfrom Hto. destruct (decide (from ≤ to)); [done|].
    exfalso. apply Hv. right. right. exists from, to. split; [done|]. split; [done|]. lia.
Qed.

(** A call either adds the validated search of a stored user or leaves the
    store as it was. *)
Lemma POST_freight_searches_cases db now payload :
  (¬ invariant_violated payload
   ∧ is_Some (users db !! FreightSearchCreate.user_id payload)
   ∧ (POST_freight_searches db now payload).2
     = with_search db (next_id (freight_searches db)) (search_obj_of payload now))
  ∨ (POST_freight_searches db now payload).2 = db.
Proof.
  destruct (POST_freight_searches db now payload) as [[new|e] db'] eqn:H.
  - left. apply POST_freight_searches_Ok_inv in H as (Hv & Hu & -> & ->). done.
  - right. simpl. unfold POST_freight_searches in H.
    destruct (model_validate payload); [|congruence].
    by eapply create_freight_search_failure.
Qed.

Lemma writes_keeps db db' :
  writes db db' →
  users db' = users db
  ∧ (searches_valid db → searches_valid db')
  ∧ (users_exist db → users_exist db').
Proof.
  intros [db0 now payload|db0 freight].
  - destruct (POST_freight_searches_cases db0 now payload) as [(Hv & Hu & ->)| ->];
      [|done].
    split; [done|]. unfold searches_valid, users_exist. simpl.
    split; intros H; (apply map_Forall_insert_2; [|done]).
    + by apply ranges_ordered_search_obj.
    + done.
  - done.
Qed.

(** X13.  The endpoints keep two invariants of the table of searches.
    Starting from a store whose searches have ordered ranges and stored
    users, after any sequence of [POST /freight_searches/] and
    [POST /freights/] requests, successful or not, every stored search
    still has ordered ranges and names a stored user, and the users are
    those of the start; so every row that a page returns has them too. *)
Theorem store_invariants_kept db0 db :
  searches_valid db0 → users_exist db0 →
  rtc writes db0 db →
  searches_valid db ∧ users_exist db ∧ users db = users db0
  ∧ ∀ freight_id limit offset before_ts before_id rows headers,
      GET_find_matches db freight_id limit offset before_ts before_id = Ok (rows, headers) →
      ∀ r, r ∈ rows →
        ranges_ordered (FreightSearch.cols r)
        ∧ is_Some (users db !! FreightSearch.user_id (FreightSearch.cols r)).
Proof.
  intros Hvalid Husers Hrtc.
  assert (searches_valid db ∧ users_exist db ∧ users db = users db0) as (Hv & Hu & Heq).
  { induction Hrtc as [db|db1 db2 db3 Hstep _ IH]; [done|].
    destruct (writes_keeps _ _ Hstep) as (Heq & Hv & Hu).
    destruct IH as (? & ? & ->); auto. }
  split; [done|]. split; [done|]. split; [done|].
  intros freight_id limit offset before_ts before_id rows headers H r Hr.
  destruct (GET_find_matches_Ok_inv _ _ _ _ _ _ _ _ H) as (f & Hf & HL & HO).
  rewrite (GET_find_matches_found _ _ f) in H by done. cbv zeta in H.
  injection H as <- _.
  apply elem_of_page_of in Hr as [_ [_ Hr]%elem_of_match_set].
  split; [apply (Hv _ _ Hr)|apply (Hu _ _ Hr)].
Qed.

Lemma store_invariants_kept_witness :
  rtc writes (Sample.store []) Fixture.lanes_after
  ∧ searches_valid Fixture.lanes_after
  ∧ users_exist Fixture.lanes_after.
Proof.
  assert (rtc writes (Sample.store []) Fixture.lanes_after) as Hrtc.
  { eapply (rtc_l _ _ (POST_freight_searches (Sample.store []) 1000 Sample.lane_body).2);
      [constructor|].
    eapply rtc_l; [apply (writes_search _ 2000 Sample.lane_body)|].
    eapply rtc_l; [apply (writes_search _ 2000 Sample.lane_body)|].
    eapply rtc_l; [apply (writes_search _ 3000 Sample.lane_body)|].
    eapply rtc_l; [apply (writes_search _ 4000 Sample.lane_body)|].
    eapply rtc_l; [apply (writes_search _ 5000 Sample.other_lane_body)|].
    eapply rtc_l; [apply (writes_search _ 5500 (Sample.priced_body 1 350 200))|].
    eapply rtc_l; [apply (writes_search _ 6000 Sample.lane_body)|].
    vm_compute. apply rtc_refl. }
  split; [exact Hrtc|].
  destruct (store_invariants_kept (Sample.store []) Fixture.lanes_after)
    as (Hv & Hu & _); [| |exact Hrtc|by split].
  - intros k s Hs. vm_compute in Hs. discriminate.
  - intros k s Hs. vm_compute in Hs. discriminate.
Defined.

(** ** Freights *)

(** X14.  [POST /freights/] stores the body as it is, under an id above
    every id in use, and returns that row; the freights already stored,
    the users and the searches are untouched, and the listing of freights
    grows by this one row.  From then on [find_matches] resolves the new
    id, with the page that the posted fields select, and answers for every
    other id as before. *)
Theorem create_freight_stored db freight :
  let new := (create_freight db freight).1 in
  let db' := (create_freight db freight).2 in
  new.2 = freight
  ∧ (∀ k f, freights db !! k = Some f → k < new.1)
  ∧ freights db' !! new.1 = Some freight
  ∧ (∀ k, k ≠ new.1 → freights db' !! k = freights db !! k)
  ∧ users db' = users db
  ∧ freight_searches db' = freight_searches db
  ∧ list_freights db' ≡ₚ new :: list_freights db
  ∧ (∀ limit offset before_ts before_id,
       1 ≤ default 200 limit ≤ 1000 → 0 ≤ default 0 offset →
       ∃ headers,
         GET_find_matches db' new.1 limit offset before_ts before_id
         = Ok (page_of db freight (default 200 limit) (default 0 offset)
                 before_ts before_id, headers))
  ∧ (∀ k limit offset before_ts before_id,
       k ≠ new.1 →
       GET_find_matches db' k limit offset before_ts before_id
       = GET_find_matches db k limit offset before_ts before_id).
Proof.
  cbv zeta. unfold create_freight. simpl.
  split; [done|]. split; [intros k f Hk; by eapply next_id_above|].
  split; [by rewrite lookup_insert_eq|].
  split; [intros k Hk; by rewrite lookup_insert_ne|].
  split; [done|]. split; [done|].
  split; [apply map_to_list_insert, next_id_fresh|]. split.
  - intros limit offset before_ts before_id HL HO.
    rewrite (GET_find_matches_found _ _ freight) by (simpl; by rewrite ?lookup_insert_eq).
    cbv zeta. eauto.
  - intros k limit offset before_ts before_id Hk.
    destruct (decide (1 ≤ default 200 limit ≤ 1000 ∧ 0 ≤ default 0 offset)) as [[HL HO]|Hbad].
    + destruct (freights db !! k) as [f|] eqn:Hf.
      * rewrite (GET_find_matches_found _ _ f), (GET_find_matches_found db _ f);
          [done|done|done|done| |done|done].
        simpl. by rewrite lookup_insert_ne.
      * rewrite !GET_find_matches_not_found; [done|done|done|done| |done|done].
        simpl. by rewrite lookup_insert_ne.
    + by rewrite !GET_find_matches_invalid.
Qed.

Lemma create_freight_stored_witness :
  (create_freight Sample.lanes Sample.freight1).1 = (4, Sample.freight1)
  ∧ ∃ rows headers,
      GET_find_matches (create_freight Sample.lanes Sample.freight1).2 4
        (Some 2) None None None = Ok (rows, headers)
      ∧ rows.*1 = [5; 4].
Proof.
  split; [vm_compute; reflexivity|].
  destruct (create_freight_stored Sample.lanes Sample.freight1)
    as (_ & _ & _ & _ & _ & _ & _ & Hnew & _).
  destruct (Hnew (Some 2) None None None ltac:(simpl; lia) ltac:(simpl; lia))
    as [headers H].
  eexists _, headers. split; [exact H|]. vm_compute. reflexivity.
Defined.

(** ** The test table *)

(** X15.  [GET /hello/] fails with a 404 exactly when the table [test] is
    empty; otherwise it answers the message of a stored row. *)
Theorem get_hello_answers test :
  (get_hello test = Raise (HTTPException 404 "No test record found") ↔ test = ∅)
  ∧ (∀ e, get_hello test = Raise e → e = HTTPException 404 "No test record found")
  ∧ (∀ message, get_hello test = Ok message →
       ∃ id row, test !! id = Some row ∧ Test.message row = message).
Proof.
  unfold get_hello. destruct (map_to_list test) as [|[id row] rows] eqn:Hrows.
  - apply map_to_list_empty_iff in Hrows as ->. split; [done|]. split; [congruence|].
    discriminate.
  - assert (test !! id = Some row) as Hrow.
    { apply elem_of_map_to_list. rewrite Hrows. by left. }
    split; [|split].
    + split; [discriminate|]. intros ->. by rewrite lookup_empty in Hrow.
    + discriminate.
    + intros message [= <-]. by exists id, row.
Qed.

Lemma get_hello_answers_witness :
  get_hello ∅ = Raise (HTTPException 404 "No test record found")
  ∧ get_hello {[ 1 := Test.mk (Some "Hello World") ]} = Ok (Some "Hello World").
Proof.
  split; [by apply (proj1 (get_hello_answers ∅))|].
  destruct (get_hello {[ 1 := Test.mk (Some "Hello World") ]}) as [message|e] eqn:H.
  - destruct (proj2 (proj2 (get_hello_answers _)) message H) as (id & row & Hrow & <-).
    apply lookup_singleton_Some in Hrow as [_ <-]. done.
  - vm_compute in H. discriminate.
Defined.
